(** * linkedin-post-bot: the publication ledger, the eligibility filter and
      the run of [main]

    A shallow embedding of [main.py] and [post_generator.py].

    - Python [str] is [string]; the characters are code points below 256.
    - An article is the JSON object of the feed, taken with string values:
      a dictionary from field names to strings, [gmap string string].
      [a.get(k)] is [a !! k], [a.get(k, d)] is [default d (a !! k)].
    - A raised exception is the [Raise] branch of [result].  The functions
      that only ask the network or the language model are functions of the
      [world] that answers; the functions that touch the database or the
      backup directory run in the monad [M], which threads the [state] of
      the machine.  [main] notes every call it makes in [calls]; the
      [print]s are left out.
    - [datetime.fromisoformat] belongs to the Python library.  [main.py] is
      embedded inside a section over it, so the results hold for any
      parser; [iso_fromisoformat] is the documented format, used to run
      the program on feed strings. *)

From Stdlib Require Import ZArith Lia Ascii String.
From stdpp Require Import gmap strings list sorting pretty.

Local Open Scope string_scope.
Local Open Scope list_scope.
Local Open Scope Z_scope.

(** ** Exceptions and results *)

Inductive exn :=
| ValueError
| TypeError
| HTTPError
| IntegrityError
| OperationalError
| PostGenerationError
| KeyError.

Inductive result (A : Type) :=
| Ok (a : A)
| Raise (e : exn).
Arguments Ok {A} a.
Arguments Raise {A} e.

Definition rbind {A B} (r : result A) (k : A → result B) : result B :=
  match r with
  | Ok a => k a
  | Raise e => Raise e
  end.

(** ** Strings *)

(** [s.replace(old, new)] for a one-character [old]. *)
Fixpoint replace (old : ascii) (new : string) (s : string) : string :=
  match s with
  | EmptyString => EmptyString
  | String c s' =>
      if Ascii.eqb c old then String.append new (replace old new s')
      else String c (replace old new s')
  end.

(** [str.isspace] on one character, for code points below 256:
    tab to carriage return, the four separators 28..31, space,
    next-line (133) and no-break space (160). *)
Definition isspace (c : ascii) : bool :=
  let n := Z.of_nat (nat_of_ascii c) in
  ((9 <=? n) && (n <=? 13)) || ((28 <=? n) && (n <=? 32))
  || (n =? 133) || (n =? 160).

Fixpoint lstrip (s : string) : string :=
  match s with
  | EmptyString => EmptyString
  | String c s' => if isspace c then lstrip s' else s
  end.

Fixpoint rstrip (s : string) : string :=
  match s with
  | EmptyString => EmptyString
  | String c s' =>
      match rstrip s' with
      | EmptyString => if isspace c then EmptyString else String c EmptyString
      | t => String c t
      end
  end.

(** [s.strip()] *)
Definition strip (s : string) : string := rstrip (lstrip s).

(** [len(s)] *)
Definition len (s : string) : Z := Z.of_nat (String.length s).

(** ** datetime *)

(** A [datetime] object: the civil fields and [tzinfo]; an aware value
    carries its UTC offset in microseconds, a naive one [None]. *)
Record datetime := mk_datetime {
  year : Z; month : Z; day : Z;
  hour : Z; minute : Z; second : Z; microsecond : Z;
  tzinfo : option Z
}.

Definition is_leap (y : Z) : bool :=
  (y mod 4 =? 0) && (negb (y mod 100 =? 0) || (y mod 400 =? 0)).

Definition days_before_year (y : Z) : Z :=
  let p := y - 1 in p * 365 + p / 4 - p / 100 + p / 400.

Definition days_in_month (y m : Z) : Z :=
  if m =? 2 then (if is_leap y then 29 else 28)
  else if (m =? 4) || (m =? 6) || (m =? 9) || (m =? 11) then 30
  else 31.

Definition days_before_month (y m : Z) : Z :=
  nth (Z.to_nat m) [0; 0; 31; 59; 90; 120; 151; 181; 212; 243; 273; 304; 334] 0
  + (if (2 <? m) && is_leap y then 1 else 0).

(** [date.toordinal()]: 0001-01-01 is day 1. *)
Definition toordinal (d : datetime) : Z :=
  days_before_year (year d) + days_before_month (year d) (month d) + day d.

(** Microseconds from 0001-01-01T00:00 as the fields read, offset ignored. *)
Definition wall_micros (d : datetime) : Z :=
  (((toordinal d - 1) * 24 + hour d) * 60 + minute d) * 60000000
  + second d * 1000000 + microsecond d.

(** [a >= b] on datetimes.  Two naive values compare by their fields, two
    aware values by their UTC instants; a naive one against an aware one
    is [TypeError: can't compare offset-naive and offset-aware datetimes]. *)
Definition datetime_ge (a b : datetime) : result bool :=
  match tzinfo a, tzinfo b with
  | None, None => Ok (wall_micros b <=? wall_micros a)
  | Some oa, Some ob => Ok (wall_micros b - ob <=? wall_micros a - oa)
  | _, _ => Raise TypeError
  end.

(** [MIN_PUBLISH_DATE = datetime(2025, 12, 11, tzinfo=timezone.utc)] *)
Definition MIN_PUBLISH_DATE : datetime :=
  mk_datetime 2025 12 11 0 0 0 0 (Some 0).

(** ** The documented ISO format

    [YYYY-MM-DD[*HH[:MM[:SS[.fff[fff]]]][+HH:MM[:SS[.ffffff]]]]], with [*]
    any one character; the fields of date and time are in their ranges
    and the offset is less than a day.  [None] stands for [ValueError]. *)

Definition digit (c : ascii) : option Z :=
  let n := Z.of_nat (nat_of_ascii c) in
  if (48 <=? n) && (n <=? 57) then Some (n - 48) else None.

(** The decimal number written by a non-empty list of digits. *)
Fixpoint digits_acc (acc : Z) (l : list ascii) : option Z :=
  match l with
  | [] => Some acc
  | c :: l' =>
      match digit c with
      | Some d => digits_acc (acc * 10 + d) l'
      | None => None
      end
  end.

Definition number (l : list ascii) : option Z :=
  match l with
  | [] => None
  | _ => digits_acc 0 l
  end.

(** [HH[:MM[:SS[.fff[fff]]]]] as hour, minute, second, microsecond. *)
Definition parse_hh_mm_ss_ff (l : list ascii) : option (Z * Z * Z * Z) :=
  match l with
  | [h1; h2] =>
      h ← number [h1; h2]; Some (h, 0, 0, 0)
  | [h1; h2; ":"%char; m1; m2] =>
      h ← number [h1; h2]; m ← number [m1; m2]; Some (h, m, 0, 0)
  | h1 :: h2 :: ":"%char :: m1 :: m2 :: ":"%char :: s1 :: s2 :: frac =>
      h ← number [h1; h2]; m ← number [m1; m2]; s ← number [s1; s2];
      match frac with
      | [] => Some (h, m, s, 0)
      | "."%char :: f =>
          if decide (length f = 3%nat) then u ← number f; Some (h, m, s, u * 1000)
          else if decide (length f = 6%nat) then u ← number f; Some (h, m, s, u)
          else None
      | _ => None
      end
  | _ => None
  end.

Definition is_sign (c : ascii) : bool :=
  Ascii.eqb c "+" || Ascii.eqb c "-".

(** Splits a time string at its first sign character. *)
Fixpoint split_sign (l : list ascii) : list ascii * option (ascii * list ascii) :=
  match l with
  | [] => ([], None)
  | c :: l' =>
      if is_sign c then ([], Some (c, l'))
      else let '(t, z) := split_sign l' in (c :: t, z)
  end.

Definition in_range (lo hi x : Z) : bool := (lo <=? x) && (x <=? hi).

Definition parse_isoformat_time (l : list ascii) : option (Z * Z * Z * Z * option Z) :=
  let '(t, z) := split_sign l in
  '(h, m, s, u) ← parse_hh_mm_ss_ff t;
  if in_range 0 23 h && in_range 0 59 m && in_range 0 59 s then
    match z with
    | None => Some (h, m, s, u, None)
    | Some (sg, zl) =>
        if bool_decide (length zl ∈ [5; 8; 15]%nat) then
          '(zh, zm, zs, zu) ← parse_hh_mm_ss_ff zl;
          let off := ((zh * 60 + zm) * 60 + zs) * 1000000 + zu in
          if off <? 86400000000 then
            Some (h, m, s, u, Some (if Ascii.eqb sg "-" then - off else off))
          else None
        else None
    end
  else None.

Definition iso_fromisoformat (s : string) : option datetime :=
  match list_ascii_of_string s with
  | y1 :: y2 :: y3 :: y4 :: "-"%char :: m1 :: m2 :: "-"%char :: d1 :: d2 :: rest =>
      y ← number [y1; y2; y3; y4]; m ← number [m1; m2]; d ← number [d1; d2];
      if in_range 1 9999 y && in_range 1 12 m && in_range 1 (days_in_month y m) d then
        match rest with
        | [] => Some (mk_datetime y m d 0 0 0 0 None)
        | _ :: tl =>
            '(h, mi, se, us, tz) ← parse_isoformat_time tl;
            Some (mk_datetime y m d h mi se us tz)
        end
      else None
  | _ => None
  end.

(** ** Articles *)

Abbreviation article := (gmap string string).

(** [a.get(k, d)] *)
Definition get_default (a : article) (k : string) (d : string) : string :=
  default d (a !! k).

(** ** The machine: ledger file, backup directory, calls to the outside *)

(** A row of [published_articles].  SQLite fills the columns [id]
    (autoincrement) and [published_at] (current time) itself and the
    program never reads them; the rows are kept in insertion order. *)
Record row := mk_row {
  url : string;
  title : option string;
  linkedin_post_id : string
}.

(** What the run does to the outside, in the order it happens. *)
Inductive call :=
| CallFetch (api_url : string)
| CallUserinfo (access_token : string)
| CallGenerate (title description body : string)
| CallPublish (access_token user_id text article_url : string)
| CallBackup (stamp : Z)
| CallRecord (url : string) (title : option string) (linkedin_post_id : string).

Definition is_publish (c : call) : bool :=
  match c with
  | CallPublish _ _ _ _ => true
  | _ => false
  end.

(** [db_file] is [published.db] with its table, [None] before [init_db]
    has created them.  [backup_dir] is the directory [backups]: a file
    [published_YYYYmmdd_HHMMSS.db] is keyed by the number YYYYmmddHHMMSS of
    its name (the fields are of fixed width, so sorting the paths sorts
    these numbers) and holds the table it was copied from. *)
Record state := mk_state {
  db_file : option (list row);
  backup_dir : gmap Z (list row);
  calls : list call
}.

Definition M (A : Type) : Type := state → result A * state.

Definition ret {A} (a : A) : M A := λ s, (Ok a, s).
Definition raise {A} (e : exn) : M A := λ s, (Raise e, s).
Definition bind {A B} (m : M A) (k : A → M B) : M B := λ s,
  match m s with
  | (Ok a, s') => k a s'
  | (Raise e, s') => (Raise e, s')
  end.
(** [try: m except: ...] hands the outcome of [m] to the handler. *)
Definition try {A} (m : M A) : M (result A) := λ s,
  let '(r, s') := m s in (Ok r, s').
Definition lift {A} (r : result A) : M A := λ s, (r, s).
Definition log (c : call) : M unit := λ s,
  (Ok tt, mk_state (db_file s) (backup_dir s) (calls s ++ [c])).

(** The call [c] is noted, then made. *)
Definition calling {A} (c : call) (m : M A) : M A := bind (log c) (λ _, m).

#[global] Instance M_ret : MRet M := @ret.
#[global] Instance M_bind : MBind M := λ A B k m, bind m k.

(** *** The ledger *)

(** [init_db]: CREATE TABLE IF NOT EXISTS. *)
Definition init_db : M unit := λ s,
  match db_file s with
  | None => (Ok tt, mk_state (Some []) (backup_dir s) (calls s))
  | Some _ => (Ok tt, s)
  end.

(** [get_published_urls]: the set of the [url] column. *)
Definition get_published_urls : M (gset string) := λ s,
  match db_file s with
  | None => (Raise OperationalError, s)
  | Some rows => (Ok (list_to_set (url <$> rows)), s)
  end.

(** The INSERT on a table whose [url] column is UNIQUE. *)
Definition insert_row (r : row) (rows : list row) : result (list row) :=
  if decide (url r ∈ url <$> rows) then Raise IntegrityError
  else Ok (rows ++ [r]).

(** [save_published_article] *)
Definition save_published_article (u : string) (t : option string) (p : string)
  : M unit := λ s,
  match db_file s with
  | None => (Raise OperationalError, s)
  | Some rows =>
      match insert_row (mk_row u t p) rows with
      | Ok rows' => (Ok tt, mk_state (Some rows') (backup_dir s) (calls s))
      | Raise e => (Raise e, s)
      end
  end.

(** [sorted(..., reverse=True)] on the backup paths: newest name first. *)
Definition newer_first (x y : Z) : Prop := y ≤ x.
#[global] Instance newer_first_dec x y : Decision (newer_first x y) := Z_le_dec y x.

(** [for old_backup in backups[5:]: old_backup.unlink()] *)
Definition unlink_all (olds : list Z) (dir : gmap Z (list row)) : gmap Z (list row) :=
  foldl (λ d k, delete k d) dir olds.

(** [backup_db], with [now] what [datetime.now().strftime(...)] writes. *)
Definition backup_db (now : Z) : M unit := λ s,
  match db_file s with
  | None => (Ok tt, s)
  | Some rows =>
      let dir := <[now := rows]> (backup_dir s) in
      let backups := merge_sort newer_first (elements (dom dir)) in
      (Ok tt, mk_state (db_file s) (unlink_all (drop 5 backups) dir) (calls s))
  end.

(** *** The outside *)

Module PostState.
Record t := mk {
  title : string;
  description : string;
  body : string;
  previous_posts : list string;
  post_text : string
}.
End PostState.

(** What the environment, the network and the language model answer. *)
Record world := mk_world {
  environ : gmap string string;
  (** GET on the feed: the [articles] array of the JSON body, if any *)
  feed : string → result (option (list article));
  (** GET userinfo: the JSON body *)
  userinfo : string → result (gmap string string);
  (** [workflow.invoke] *)
  workflow_invoke : PostState.t → result PostState.t;
  (** POST ugcPosts: the JSON body *)
  ugc_posts : string → string → string → string → result (gmap string string);
  (** the local time at the backup, as YYYYmmddHHMMSS *)
  now : Z
}.

(** Truth value of [os.environ.get(k)]: set and not empty. *)
Definition truthy (v : option string) : bool :=
  match v with
  | Some (String _ _) => true
  | _ => false
  end.

(** *** post_generator.py *)

(** [generate_linkedin_post]; every exception of the call becomes
    [PostGenerationError]. *)
Definition generate_linkedin_post (w : world)
    (title description body : string) (previous_posts : option (list string))
  : result string :=
  match workflow_invoke w
          (PostState.mk title description body (default [] previous_posts) "") with
  | Raise _ => Raise PostGenerationError
  | Ok result =>
      let post_text := PostState.post_text result in
      if bool_decide (post_text = "") || (len (strip post_text) <? 20)
      then Raise PostGenerationError
      else Ok post_text
  end.

(** *** main.py *)

(** [v in published_urls] for [v = a.get("link")]: [None], the value of a
    missing field, is no member of a set of strings. *)
Definition is_in (v : option string) (published_urls : gset string) : bool :=
  match v with
  | Some u => bool_decide (u ∈ published_urls)
  | None => false
  end.

(** [fetch_articles] *)
Definition fetch_articles (w : world) (api_url : string) : result (list article) :=
  rbind (feed w api_url) (λ data, Ok (default [] data)).

(** [get_linkedin_user_id]; a body without [sub] is a [KeyError]. *)
Definition get_linkedin_user_id (w : world) (access_token : string) : result string :=
  rbind (userinfo w access_token) (λ json,
    match json !! "sub" with
    | Some sub => Ok sub
    | None => Raise KeyError
    end).

(** [post_to_linkedin] *)
Definition post_to_linkedin (w : world)
    (access_token user_id text article_url : string) : result (gmap string string) :=
  ugc_posts w access_token user_id text article_url.

(** [create_post_text] *)
Definition create_post_text (w : world) (a : article) : result string :=
  generate_linkedin_post w
    (get_default a "title" "") (get_default a "description" "")
    (get_default a "body" "") None.

(** The status of the process after [exit(main())]: the returned value,
    or 1 when an exception reaches the top. *)
Definition exit_code (r : result Z) : Z :=
  match r with
  | Ok n => n
  | Raise _ => 1
  end.

(** *** Reading a state *)

(** The rows of the table; none before the table exists. *)
Definition rows_of (s : state) : list row := default [] (db_file s).

(** What [get_published_urls] answers once [init_db] has run. *)
Definition known_urls (s : state) : gset string :=
  list_to_set (url <$> rows_of s).

(** The state of a run under way: table [rows], backups [dir], and the
    calls [tr] made since [s]. *)
Definition after (s : state) (rows : list row) (dir : gmap Z (list row))
    (tr : list call) : state :=
  mk_state (Some rows) dir (calls s ++ tr).

(** The backup directory [backup_db] leaves, from [dir] and table [rows]. *)
Definition backed_up (now : Z) (rows : list row) (dir : gmap Z (list row))
  : gmap Z (list row) :=
  backup_dir (backup_db now (mk_state (Some rows) dir [])).2.

(** Both settings are in the environment and not empty. *)
Definition configured (w : world) (access_token articles_api_url : string) : Prop :=
  environ w !! "LINKEDIN_ACCESS_TOKEN" = Some access_token ∧ access_token ≠ "" ∧
  environ w !! "ARTICLES_API_URL" = Some articles_api_url ∧ articles_api_url ≠ "".

(** A sequence of [backup_db] calls, each with the time of the call and
    the table the ledger file holds then, from the directory [dir]. *)
Definition run_backups (dir : gmap Z (list row)) (cs : list (Z * list row))
  : gmap Z (list row) :=
  foldl (λ d c, backed_up c.1 c.2 d) dir cs.

(** *** Scenarios

    The feed of the end-to-end scenario and its variations; the results
    at the end run the program on them. *)

Definition art (link published_at : string) : article :=
  {[ "link" := link; "title" := "T"; "description" := "D"; "body" := "B";
     "publishedAt" := published_at ]}.

(** one second after the cutoff, one second before, on it, one
    microsecond before, no offset, no date *)
Definition art_a : article := art "a" "2025-12-11T00:00:01Z".
Definition art_b : article := art "b" "2025-12-10T23:59:59Z".
Definition art_cutoff : article := art "c" "2025-12-11T00:00:00Z".
Definition art_before : article := art "d" "2025-12-10T23:59:59.999999Z".
Definition art_naive : article := art "n" "2025-12-12T00:00:00".
Definition art_undated : article := art "x" "yesterday".
(** no [link] field *)
Definition art_nolink : article :=
  {[ "title" := "T"; "publishedAt" := "2025-12-12T08:00:00Z" ]}.

Definition fifty : string :=
  "A post of fifty characters, written for the test!!".

(** A world with both settings, the given feed, text and publish answer. *)
Definition world_of (articles : list article) (text : string)
    (posted : result (gmap string string)) : world :=
  mk_world
    {[ "LINKEDIN_ACCESS_TOKEN" := "tok"; "ARTICLES_API_URL" := "http://feed" ]}
    (λ _, Ok (Some articles))
    (λ _, Ok {[ "sub" := "me" ]})
    (λ asked, Ok (PostState.mk (PostState.title asked)
                    (PostState.description asked) (PostState.body asked)
                    (PostState.previous_posts asked) text))
    (λ _ _ _ _, posted)
    20251212093000.

Definition posted_p1 : result (gmap string string) := Ok {[ "id" := "p1" ]}.

(** No ledger file yet; and a ledger with one row of url [u]. *)
Definition fresh : state := mk_state None ∅ [].
Definition recorded (u : string) : state :=
  mk_state (Some [mk_row u (Some "T") "p0"]) ∅ [].

(** ** get_token.py

    The one-time script that obtains the access token.  What [main]
    prints, posts to the token endpoint and opens in the browser is kept
    in a [console] (the two lines printed when the module is loaded come
    before); the answer written to the browser is the value of [do_GET].
    [urllib.parse] belongs to the Python library: the script is embedded
    inside a section over the three functions it uses. *)

Module GetToken.

Inductive exn :=
| KeyError
| IndexError
| RequestException
| JSONDecodeError.

Inductive outcome (A : Type) :=
| Returns (a : A)
| Raises (e : exn).
Arguments Returns {A} a.
Arguments Raises {A} e.

(** The JSON body of the token endpoint: the fields the script reads. *)
Record body := mk_body {
  access_token : option string;
  expires_in : option Z
}.

(** A [requests] response: status, [response.json()], [response.text]. *)
Record response := mk_response {
  status_code : Z;
  json : outcome body;
  text : string
}.

(** What the handler writes to the browser: status line and page. *)
Record reply := mk_reply {
  status : Z;
  page : string
}.

(** What the script has done: the lines printed, the forms posted to the
    token endpoint, the urls opened in the browser. *)
Record console := mk_console {
  stdout : list string;
  posted : list (gmap string (option string));
  opened : list string
}.

(** The module globals read from the environment, the token endpoint,
    and the request the browser sends to the local server. *)
Record world := mk_world {
  CLIENT_ID : option string;
  CLIENT_SECRET : option string;
  accessToken : gmap string (option string) → outcome response;
  request_path : string
}.

Definition REDIRECT_URI : string := "http://localhost:8000/callback".
Definition SCOPES : list string := ["openid"; "profile"; "w_member_social"].

Definition nl : string := String "010"%char "".

(** [s * n] *)
Fixpoint times (s : string) (n : nat) : string :=
  match n with
  | O => ""
  | S n' => s +:+ times s n'
  end.

(** [sep.join(l)] *)
Fixpoint join (sep : string) (l : list string) : string :=
  match l with
  | [] => ""
  | [x] => x
  | x :: l' => x +:+ sep +:+ join sep l'
  end.

Definition print (line : string) (c : console) : console :=
  mk_console (stdout c ++ [line]) (posted c) (opened c).

(** The [data] of the POST in [exchange_code_for_token]. *)
Definition token_form (w : world) (code : string) : gmap string (option string) :=
  {[ "grant_type" := Some "authorization_code";
     "code" := Some code;
     "redirect_uri" := Some REDIRECT_URI;
     "client_id" := CLIENT_ID w;
     "client_secret" := CLIENT_SECRET w ]}.

(** [exchange_code_for_token] *)
Definition exchange_code_for_token (w : world) (code : string) (c : console)
  : outcome (option string) * console :=
  let form := token_form w code in
  let c := mk_console (stdout c) (posted c ++ [form]) (opened c) in
  match accessToken w form with
  | Raises e => (Raises e, c)
  | Returns response =>
      if status_code response =? 200 then
        match json response with
        | Raises e => (Raises e, c)
        | Returns data =>
            match access_token data with
            | None => (Raises KeyError, c)
            | Some access_token =>
                let expires_in := default 0 (expires_in data) in
                let c := print (nl +:+ times "=" 50) c in
                let c := print "ACCESS TOKEN (save this!):" c in
                let c := print (times "=" 50) c in
                let c := print access_token c in
                let c := print (times "=" 50) c in
                let c := print ("Expires in: " +:+ pretty (expires_in / 86400)
                                +:+ " days") c in
                let c := print (nl +:+ "Add this to your GitHub secrets as LINKEDIN_ACCESS_TOKEN") c in
                (Returns (Some access_token), c)
            end
        end
      else
        (Returns None, print ("Error getting token: " +:+ text response) c)
  end.

Definition success_page : string :=
  "<h1>Success!</h1><p>You can close this window. Check your terminal for the access token.</p>".
Definition failure_page : string := "<h1>Error</h1><p>Failed to get token.</p>".

Section Library.

(** [urllib.parse.urlparse(path).query], [urllib.parse.parse_qs] and
    [urllib.parse.urlencode] *)
Variable urlparse_query : string → string.
Variable parse_qs : string → gmap string (list string).
Variable urlencode : list (string * string) → string.

(** [OAuthHandler.do_GET]; [None] when nothing is written. *)
Definition do_GET (w : world) (path : string) (c : console)
  : outcome (option reply) * console :=
  if String.prefix "/callback" path then
    let query := urlparse_query path in
    let params := parse_qs query in
    match params !! "code" with
    | Some codes =>
        match codes with
        | [] => (Raises IndexError, c)
        | code :: _ =>
            let c := print (nl +:+ "Authorization code received!") c in
            match exchange_code_for_token w code c with
            | (Raises e, c) => (Raises e, c)
            | (Returns token, c) =>
                match token with
                | Some (String _ _) => (Returns (Some (mk_reply 200 success_page)), c)
                | _ => (Returns (Some (mk_reply 500 failure_page)), c)
                end
            end
        end
    | None =>
        match default ["Unknown error"] (params !! "error") with
        | [] => (Raises IndexError, c)
        | error :: _ =>
            let c := print (nl +:+ "Error: " +:+ error) c in
            (Returns (Some (mk_reply 400 ("<h1>Error</h1><p>" +:+ error +:+ "</p>"))), c)
        end
    end
  else (Returns None, c).

Definition truthy (v : option string) : bool :=
  match v with
  | Some (String _ _) => true
  | _ => false
  end.

(** [main]: the browser is sent to the authorization url, and the one
    request the server handles is the GET of [request_path].  The value
    is what became of that request: the reply written, or the exception
    of the handler, which the server reports before [main] ends. *)
Definition main (w : world) (c : console) : outcome (option reply) * console :=
  if negb (truthy (CLIENT_ID w)) || negb (truthy (CLIENT_SECRET w)) then
    (Returns None,
     print "Error: LINKEDIN_CLIENT_ID or LINKEDIN_CLIENT_SECRET not set" c)
  else
    let auth_url :=
      "https://www.linkedin.com/oauth/v2/authorization?" +:+
      urlencode [("response_type", "code");
                 ("client_id", default "" (CLIENT_ID w));
                 ("redirect_uri", REDIRECT_URI);
                 ("scope", join " " SCOPES)] in
    let c := print "Opening browser for LinkedIn authorization..." c in
    let c := print (nl +:+ "If browser doesn't open, visit:" +:+ nl +:+ auth_url
                    +:+ nl) c in
    let c := mk_console (stdout c) (posted c) (opened c ++ [auth_url]) in
    let c := print "Waiting for authorization callback on http://localhost:8000 ..." c in
    do_GET w (request_path w) c.

End Library.

End GetToken.

(** *** More scenarios *)

(** A world with both settings, where the feed answers [answer] and the
    user-info request [who]; the text is [fifty], the post gets id p1. *)
Definition world_with (answer : result (option (list article)))
    (who : result (gmap string string)) : world :=
  mk_world
    {[ "LINKEDIN_ACCESS_TOKEN" := "tok"; "ARTICLES_API_URL" := "http://feed" ]}
    (λ _, answer)
    (λ _, who)
    (λ asked, Ok (PostState.mk (PostState.title asked)
                    (PostState.description asked) (PostState.body asked)
                    (PostState.previous_posts asked) fifty))
    (λ _ _ _ _, posted_p1)
    20251212093000.

(** The feed of the boundary dates. *)
Definition feed_boundary : list article :=
  [art_cutoff; art_before; art_undated; art_a; art_b].

Section Program.

Variable fromisoformat : string → option datetime.

(** [parse_publish_date] *)
Definition parse_publish_date (date_str : string) : option datetime :=
  if bool_decide (date_str = "") then None
  else fromisoformat (replace "Z" "+00:00" date_str).

(** The loop of [main] that builds [new_articles]. *)
Fixpoint select_new_articles (published_urls : gset string)
    (articles : list article) : result (list article) :=
  match articles with
  | [] => Ok []
  | a :: rest =>
      if is_in (a !! "link") published_urls
      then select_new_articles published_urls rest
      else
        match parse_publish_date (get_default a "publishedAt" "") with
        | None => select_new_articles published_urls rest
        | Some pub_date =>
            rbind (datetime_ge pub_date MIN_PUBLISH_DATE) (λ ge,
            rbind (select_new_articles published_urls rest) (λ l,
            Ok (if ge then a :: l else l)))
        end
  end.

(** [main]; the value is what [main()] returns. *)
Definition main (w : world) : M Z :=
  let access_token := environ w !! "LINKEDIN_ACCESS_TOKEN" in
  let articles_api_url := environ w !! "ARTICLES_API_URL" in
  if negb (truthy access_token) then ret 1
  else if negb (truthy articles_api_url) then ret 1
  else
    let access_token := default "" access_token in
    let articles_api_url := default "" articles_api_url in
    init_db ;;
    published_urls ← get_published_urls;
    articles ← calling (CallFetch articles_api_url)
                 (lift (fetch_articles w articles_api_url));
    new_articles ← lift (select_new_articles published_urls articles);
    match new_articles with
    | [] => ret 0
    | a :: _ =>
        user_id ← calling (CallUserinfo access_token)
                    (lift (get_linkedin_user_id w access_token));
        generated ← try (calling (CallGenerate (get_default a "title" "")
                                 (get_default a "description" "")
                                 (get_default a "body" ""))
                           (lift (create_post_text w a)));
        match generated with
        | Raise PostGenerationError => ret 1
        | Raise e => raise e
        | Ok post_text =>
            let article_url := get_default a "link" "" in
            result ← calling (CallPublish access_token user_id post_text article_url)
                       (lift (post_to_linkedin w access_token user_id post_text
                                article_url));
            let linkedin_post_id := get_default result "id" "" in
            calling (CallBackup (now w)) (backup_db (now w)) ;;
            calling (CallRecord article_url (a !! "title") linkedin_post_id)
              (save_published_article article_url (a !! "title") linkedin_post_id) ;;
            ret 0
        end
    end.

(** The calls a run of [main] from [s] makes. *)
Definition run_trace (w : world) (s : state) : list call :=
  drop (length (calls s)) (calls (main w s).2).

(** The run gets as far as [new_articles = l]. *)
Definition new_articles_of (w : world) (s : state) (l : list article) : Prop :=
  ∃ access_token api_url articles,
    configured w access_token api_url ∧
    fetch_articles w api_url = Ok articles ∧
    select_new_articles (known_urls s) articles = Ok l.

(** What [a] contributes to [new_articles] when the loop gets through it. *)
Definition keeps (published_urls : gset string) (a : article) : bool :=
  negb (is_in (a !! "link") published_urls) &&
  match parse_publish_date (get_default a "publishedAt" "") with
  | Some pub_date =>
      match datetime_ge pub_date MIN_PUBLISH_DATE with
      | Ok ge => ge
      | Raise _ => false
      end
  | None => false
  end.

(** The loop raises on [a]: a new link and a date without offset. *)
Definition naive_date (published_urls : gset string) (a : article) : Prop :=
  is_in (a !! "link") published_urls = false ∧
  ∃ pub_date, parse_publish_date (get_default a "publishedAt" "") = Some pub_date
              ∧ tzinfo pub_date = None.

(** The ways a run of [main] ends: the states of the orchestrator, each
    with the answers that lead there, the result, the ledger, the backups
    and the calls made. *)
Inductive outcome (w : world) (s : state) : result Z → state → Prop :=
| ConfigMissing :
    truthy (environ w !! "LINKEDIN_ACCESS_TOKEN")
      && truthy (environ w !! "ARTICLES_API_URL") = false →
    outcome w s (Ok 1) s
| SourceUnavailable tok api e :
    configured w tok api →
    fetch_articles w api = Raise e →
    outcome w s (Raise e)
      (after s (rows_of s) (backup_dir s) [CallFetch api])
| FilterRaised tok api articles e :
    configured w tok api →
    fetch_articles w api = Ok articles →
    select_new_articles (known_urls s) articles = Raise e →
    outcome w s (Raise e)
      (after s (rows_of s) (backup_dir s) [CallFetch api])
| NoWork tok api articles :
    configured w tok api →
    fetch_articles w api = Ok articles →
    select_new_articles (known_urls s) articles = Ok [] →
    outcome w s (Ok 0)
      (after s (rows_of s) (backup_dir s) [CallFetch api])
| IdentityFailed tok api articles a rest e :
    configured w tok api →
    fetch_articles w api = Ok articles →
    select_new_articles (known_urls s) articles = Ok (a :: rest) →
    get_linkedin_user_id w tok = Raise e →
    outcome w s (Raise e)
      (after s (rows_of s) (backup_dir s) [CallFetch api; CallUserinfo tok])
| GenerationFailed tok api articles a rest uid :
    configured w tok api →
    fetch_articles w api = Ok articles →
    select_new_articles (known_urls s) articles = Ok (a :: rest) →
    get_linkedin_user_id w tok = Ok uid →
    create_post_text w a = Raise PostGenerationError →
    outcome w s (Ok 1)
      (after s (rows_of s) (backup_dir s)
         [CallFetch api; CallUserinfo tok;
          CallGenerate (get_default a "title" "") (get_default a "description" "")
            (get_default a "body" "")])
| PublishFailed tok api articles a rest uid text e :
    configured w tok api →
    fetch_articles w api = Ok articles →
    select_new_articles (known_urls s) articles = Ok (a :: rest) →
    get_linkedin_user_id w tok = Ok uid →
    create_post_text w a = Ok text →
    post_to_linkedin w tok uid text (get_default a "link" "") = Raise e →
    outcome w s (Raise e)
      (after s (rows_of s) (backup_dir s)
         [CallFetch api; CallUserinfo tok;
          CallGenerate (get_default a "title" "") (get_default a "description" "")
            (get_default a "body" "");
          CallPublish tok uid text (get_default a "link" "")])
| RecordFailed tok api articles a rest uid text json e :
    configured w tok api →
    fetch_articles w api = Ok articles →
    select_new_articles (known_urls s) articles = Ok (a :: rest) →
    get_linkedin_user_id w tok = Ok uid →
    create_post_text w a = Ok text →
    post_to_linkedin w tok uid text (get_default a "link" "") = Ok json →
    insert_row (mk_row (get_default a "link" "") (a !! "title")
                  (get_default json "id" "")) (rows_of s) = Raise e →
    outcome w s (Raise e)
      (after s (rows_of s) (backed_up (now w) (rows_of s) (backup_dir s))
         [CallFetch api; CallUserinfo tok;
          CallGenerate (get_default a "title" "") (get_default a "description" "")
            (get_default a "body" "");
          CallPublish tok uid text (get_default a "link" "");
          CallBackup (now w);
          CallRecord (get_default a "link" "") (a !! "title")
            (get_default json "id" "")])
| Recorded tok api articles a rest uid text json rows' :
    configured w tok api →
    fetch_articles w api = Ok articles →
    select_new_articles (known_urls s) articles = Ok (a :: rest) →
    get_linkedin_user_id w tok = Ok uid →
    create_post_text w a = Ok text →
    post_to_linkedin w tok uid text (get_default a "link" "") = Ok json →
    insert_row (mk_row (get_default a "link" "") (a !! "title")
                  (get_default json "id" "")) (rows_of s) = Ok rows' →
    outcome w s (Ok 0)
      (after s rows' (backed_up (now w) (rows_of s) (backup_dir s))
         [CallFetch api; CallUserinfo tok;
          CallGenerate (get_default a "title" "") (get_default a "description" "")
            (get_default a "body" "");
          CallPublish tok uid text (get_default a "link" "");
          CallBackup (now w);
          CallRecord (get_default a "link" "") (a !! "title")
            (get_default json "id" "")]).

(** Runs of [main] one after the other, each in its own world, from [s]. *)
Fixpoint runs (ws : list world) (s : state) : state :=
  match ws with
  | [] => s
  | w :: ws' => runs ws' (main w s).2
  end.

(** ** Results *)

(** *** The ledger *)

(** C2: after [save_published_article] has succeeded for [u], a second
    call for [u] raises the [IntegrityError] of the UNIQUE column, out of
    the function and with the table as it was; [get_published_urls] then
    has [u], and one row carries it. *)
Theorem save_twice_raises u t p t' p' s s1 :
  save_published_article u t p s = (Ok (), s1) →
  save_published_article u t' p' s1 = (Raise IntegrityError, s1) ∧
  (∃ urls, get_published_urls s1 = (Ok urls, s1) ∧ u ∈ urls) ∧
  length (filter (λ r, url r = u) (rows_of s1)) = 1%nat.
Proof.
  unfold save_published_article, get_published_urls, insert_row, rows_of.
  destruct (db_file s) as [rows|]; [|done]. simpl.
  destruct (decide (u ∈ url <$> rows)) as [|Hnew]; [done|].
  intros [= <-]. simpl.
  assert (Hin : u ∈ url <$> rows ++ [mk_row u t p]).
  { rewrite fmap_app. apply elem_of_app. right. by left. }
  split_and!.
  - by destruct (decide _).
  - eexists. split; [done|]. by apply elem_of_list_to_set.
  - rewrite filter_app, length_app.
    rewrite filter_cons_True, filter_nil by done. simpl.
    assert (filter (λ r, url r = u) rows = []) as ->; [|done].
    clear Hin. induction rows as [|r rows IH]; [done|].
    rewrite fmap_cons, not_elem_of_cons in Hnew. destruct Hnew as [? ?].
    rewrite filter_cons_False by done. auto.
Qed.

(** *** Backups *)

#[local] Instance newer_first_total : Total newer_first.
Proof. intros x y. unfold newer_first. lia. Qed.
#[local] Instance newer_first_trans : Transitive newer_first.
Proof. intros x y z. unfold newer_first. lia. Qed.
#[local] Instance newer_first_antisymm : AntiSymm (=) newer_first.
Proof. intros x y. unfold newer_first. lia. Qed.

Lemma backed_up_eq now rows dir :
  backed_up now rows dir =
    unlink_all
      (drop 5 (merge_sort newer_first (elements (dom (<[now := rows]> dir)))))
      (<[now := rows]> dir).
Proof. done. Qed.

(** Unlinking removes the named files and no other. *)
Lemma unlink_all_lookup olds (dir : gmap Z (list row)) k :
  unlink_all olds dir !! k = if decide (k ∈ olds) then None else dir !! k.
Proof.
  unfold unlink_all. revert dir.
  induction olds as [|o olds IH]; intros dir.
  { by rewrite decide_False by apply not_elem_of_nil. }
  change (foldl (λ d i, delete i d) (delete o dir) olds !! k =
          if decide (k ∈ o :: olds) then None else dir !! k).
  rewrite IH. destruct (decide (k ∈ olds)) as [Hin|Hout].
  - by rewrite decide_True by (by right).
  - destruct (decide (k = o)) as [->|Hne].
    + rewrite decide_True by (by left). apply lookup_delete_eq.
    + rewrite decide_False by (rewrite elem_of_cons; tauto).
      by apply lookup_delete_ne.
Qed.

Lemma increasing_NoDup (ks : list Z) : StronglySorted Z.lt ks → NoDup ks.
Proof.
  induction 1 as [|k ks _ IH Hk]; constructor; [|done].
  intros Hin. rewrite Forall_forall in Hk. specialize (Hk _ Hin). lia.
Qed.

(** Sorting the names of increasing stamps newest first reverses them. *)
Lemma sorted_backups (ks : list Z) :
  StronglySorted Z.lt ks →
  merge_sort newer_first (elements (list_to_set ks : gset Z)) = reverse ks.
Proof.
  intros Hks. apply (StronglySorted_unique newer_first).
  - apply StronglySorted_merge_sort; apply _.
  - clear -Hks. induction Hks as [|k ks _ IH Hk].
    { constructor. }
    rewrite reverse_cons. apply StronglySorted_app_2; [|done|repeat constructor].
    intros x1 x2 Hx1 ->%list_elem_of_singleton. rewrite elem_of_reverse in Hx1.
    rewrite Forall_forall in Hk. specialize (Hk _ Hx1). unfold newer_first. lia.
  - rewrite merge_sort_Permutation, elements_list_to_set
      by (by apply increasing_NoDup).
    by rewrite reverse_Permutation.
Qed.

(** Dropping the first [n] entries of a list of files with distinct
    names removes exactly their names from the directory. *)
Lemma list_to_map_drop (n : nat) (fs : list (Z * list row)) k :
  NoDup fs.*1 →
  (list_to_map (drop n fs) : gmap Z (list row)) !! k =
    if decide (k ∈ take n fs.*1) then None else (list_to_map fs : gmap Z _) !! k.
Proof.
  rewrite <- fmap_take.
  generalize (take_drop n fs). generalize (drop n fs) (take n fs).
  intros l2 l1 <-. rewrite fmap_app, list_to_map_app.
  intros (_ & Hdisj & _)%NoDup_app.
  destruct (decide (k ∈ l1.*1)) as [Hin|Hout].
  - by apply not_elem_of_list_to_map_1, Hdisj.
  - by rewrite lookup_union_r by (by apply not_elem_of_list_to_map_1).
Qed.

(** One backup on top of files with increasing stamps: the new copy goes
    last, and all but the five newest go. *)
Lemma backed_up_increasing (fs : list (Z * list row)) now rows :
  StronglySorted Z.lt (fs ++ [(now, rows)]).*1 →
  backed_up now rows (list_to_map fs) =
    list_to_map (drop (length (fs ++ [(now, rows)]) - 5) (fs ++ [(now, rows)])).
Proof.
  intros Hs. pose proof (increasing_NoDup _ Hs) as Hnd.
  assert (Hnew : now ∉ fs.*1).
  { rewrite fmap_app in Hnd. apply NoDup_app in Hnd as (_ & Hdisj & _).
    intros Hin. apply (Hdisj _ Hin). by left. }
  rewrite backed_up_eq, <- list_to_map_snoc by done.
  rewrite dom_list_to_map_L, sorted_backups, drop_reverse by done.
  apply map_eq. intros k.
  rewrite unlink_all_lookup, list_to_map_drop, length_fmap by done.
  destruct (decide (k ∈ reverse _)) as [Hin|Hout].
  - by rewrite decide_True by (by apply elem_of_reverse).
  - by rewrite decide_False by (by rewrite <- elem_of_reverse).
Qed.

Lemma run_backups_snoc dir cs c :
  run_backups dir (cs ++ [c]) = backed_up c.1 c.2 (run_backups dir cs).
Proof. unfold run_backups. by rewrite foldl_app. Qed.

(** C8, for backups at increasing seconds: when every backup is made at a
    later second than the one before, starting with no backup, the
    directory holds exactly the copies of the last five calls, or of all
    of them when there were fewer than five. *)
Theorem backup_retention (cs : list (Z * list row)) :
  Sorted Z.lt cs.*1 →
  run_backups ∅ cs = list_to_map (drop (length cs - 5) cs) ∧
  size (run_backups ∅ cs) = Nat.min 5 (length cs) ∧
  dom (run_backups ∅ cs) = list_to_set (drop (length cs - 5) cs.*1).
Proof.
  intros Hs%Sorted_StronglySorted; [|apply _].
  assert (Heq : run_backups ∅ cs = list_to_map (drop (length cs - 5) cs)).
  { induction cs as [|[now rows] cs IH] using rev_ind; [done|].
    rewrite run_backups_snoc. simpl.
    pose proof Hs as Hs'. rewrite fmap_app in Hs'.
    apply StronglySorted_app_1_l in Hs'. rewrite (IH Hs').
    rewrite backed_up_increasing.
    - rewrite !length_app, length_drop. simpl.
      destruct (decide (length cs ≤ 5)%nat) as [Hle|Hgt].
      + replace (length cs - 5)%nat with 0%nat by lia. simpl. f_equal. f_equal. lia.
      + rewrite !drop_app_le by (rewrite ?length_drop; lia).
        rewrite drop_drop. do 3 f_equal. lia.
    - rewrite fmap_app, fmap_drop. rewrite fmap_app in Hs.
      apply StronglySorted_app in Hs as (H12 & H1 & H2).
      apply StronglySorted_app_2; [|
        |done].
      + intros x1 x2 Hx1. apply H12.
        rewrite <- (take_drop (length cs - 5) cs.*1). apply elem_of_app. by right.
      + rewrite <- (take_drop (length cs - 5) cs.*1) in H1.
        by apply StronglySorted_app_1_r in H1. }
  split_and!; [done| |].
  - rewrite Heq, map_size_list_to_map, length_drop; [lia|].
    rewrite fmap_drop. apply increasing_NoDup.
    rewrite <- (take_drop (length cs - 5) cs.*1) in Hs.
    by apply StronglySorted_app_1_r in Hs.
  - by rewrite Heq, dom_list_to_map_L, fmap_drop.
Qed.

(** *** The generator *)

(** C7: [generate_linkedin_post] raises, and then [PostGenerationError],
    exactly when the call raises or the stripped text has fewer than 20
    characters; otherwise it returns the text as it came, whose stripped
    length is at least 20. *)
Theorem generate_linkedin_post_valid w t d b pp :
  let asked := PostState.mk t d b (default [] pp) "" in
  (generate_linkedin_post w t d b pp = Raise PostGenerationError ↔
     (∃ e, workflow_invoke w asked = Raise e) ∨
     (∃ answer, workflow_invoke w asked = Ok answer ∧
                len (strip (PostState.post_text answer)) < 20)) ∧
  (∀ e, generate_linkedin_post w t d b pp = Raise e → e = PostGenerationError) ∧
  (∀ text, generate_linkedin_post w t d b pp = Ok text →
     20 ≤ len (strip text) ∧
     ∃ answer, workflow_invoke w asked = Ok answer ∧
               PostState.post_text answer = text).
Proof.
  intros asked. unfold generate_linkedin_post. fold asked.
  destruct (workflow_invoke w asked) as [answer|e]; simpl.
  2:{ split_and!; [split; eauto|congruence|done]. }
  destruct (bool_decide_reflect (PostState.post_text answer = "")) as [He|He];
    simpl.
  { split_and!; [|congruence|done].
    split; [|done]. intros _. right. exists answer. by rewrite He. }
  destruct (Z.ltb_spec (len (strip (PostState.post_text answer))) 20).
  - split_and!; [|congruence|done]. split; [|done]. eauto.
  - split_and!; [|done|].
    + split; [done|]. intros [[? [=]]|(? & [= <-] & ?)]. lia.
    + intros text [= <-]. eauto.
Qed.

Lemma create_post_text_raises w a e :
  create_post_text w a = Raise e → e = PostGenerationError.
Proof.
  unfold create_post_text, generate_linkedin_post.
  destruct (workflow_invoke w _) as [ps|e']; [|congruence].
  case_match; congruence.
Qed.

(** *** The eligibility loop *)

Lemma datetime_ge_cutoff d :
  datetime_ge d MIN_PUBLISH_DATE =
    match tzinfo d with
    | Some off => Ok (wall_micros MIN_PUBLISH_DATE <=? wall_micros d - off)
    | None => Raise TypeError
    end.
Proof. unfold datetime_ge. simpl. destruct (tzinfo d); [|done]. by rewrite Z.sub_0_r. Qed.

(** Whatever the loop returns is the sub-list of the articles it keeps. *)
Lemma select_new_articles_Ok urls arts l :
  select_new_articles urls arts = Ok l → l = filter (λ a, keeps urls a) arts.
Proof.
  revert l. induction arts as [|a arts IH]; intros l; simpl; [by intros [= <-]|].
  rewrite filter_cons.
  destruct (decide (keeps urls a)) as [Hk|Hk]; unfold keeps in Hk;
    destruct (is_in (a !! "link") urls); simpl in *; try done; auto;
    destruct (parse_publish_date _) as [d|]; simpl in *; try done; auto;
    destruct (datetime_ge d MIN_PUBLISH_DATE) as [ge|e]; simpl in *; try done;
    destruct (select_new_articles urls arts) as [l'|e]; simpl; try done;
    intros [= <-]; destruct ge; try done; [f_equal|]; auto.
Qed.

(** The loop raises exactly when it meets a new link with a naive date,
    and then with [TypeError]. *)
Lemma select_new_articles_Raise urls arts e :
  select_new_articles urls arts = Raise e ↔
  e = TypeError ∧ Exists (naive_date urls) arts.
Proof.
  induction arts as [|a arts IH]; simpl.
  { split; [done|]. intros [_ H]. by apply Exists_nil in H. }
  rewrite Exists_cons. unfold naive_date at 1.
  destruct (is_in (a !! "link") urls); simpl.
  { rewrite IH. split; [tauto|]. intros [? [[? _]|?]]; [done|tauto]. }
  destruct (parse_publish_date _) as [d|]; simpl.
  2:{ rewrite IH. split; [tauto|]. intros [? [[_ (? & ? & _)]|?]]; [done|tauto]. }
  rewrite datetime_ge_cutoff.
  destruct (tzinfo d) as [off|] eqn:Htz; simpl.
  - assert (Hn : ¬ ∃ pub_date, Some d = Some pub_date ∧ tzinfo pub_date = None)
      by (intros (? & [= <-] & ?); congruence).
    revert IH. destruct (select_new_articles urls arts) as [l'|e']; simpl;
      intros IH; [|tauto].
    split; [done|]. intros [He [[_ Hd]|Hex]]; [tauto|].
    by assert (Ok l' = Raise e) by (by apply IH).
  - split; [intros [= <-]; eauto 6|]. by intros [-> _].
Qed.

(** Every article the loop returns passed both checks. *)
Lemma select_new_articles_keeps urls arts l a :
  select_new_articles urls arts = Ok l → a ∈ l → a ∈ arts ∧ keeps urls a.
Proof.
  intros ->%select_new_articles_Ok Ha. by apply list_elem_of_filter in Ha as [? ?].
Qed.

(** The link of a returned article is not in the ledger. *)
Lemma select_new_articles_link urls arts l a u :
  select_new_articles urls arts = Ok l → a ∈ l → a !! "link" = Some u → u ∉ urls.
Proof.
  intros Hsel Ha Hu. apply (select_new_articles_keeps _ _ _ _ Hsel) in Ha as [_ Hk].
  unfold keeps in Hk. rewrite Hu in Hk. simpl in Hk.
  apply andb_prop_elim in Hk as [Hk _]. apply negb_prop_elim in Hk.
  intros Hin. apply Hk. by apply bool_decide_pack.
Qed.

(** Without naive dates the loop returns, and returns the kept articles. *)
Lemma select_new_articles_aware urls arts :
  Forall (λ a, ¬ naive_date urls a) arts →
  select_new_articles urls arts = Ok (filter (λ a, keeps urls a) arts).
Proof.
  intros Hall.
  destruct (select_new_articles urls arts) as [l|e] eqn:Hsel.
  - f_equal. by apply select_new_articles_Ok.
  - apply select_new_articles_Raise in Hsel as [_ Hex].
    apply Exists_exists in Hex as (a & Ha & Hn).
    rewrite Forall_forall in Hall. by destruct (Hall a Ha).
Qed.

(** *** The run of [main] *)

Lemma truthy_Some v : truthy v = true → ∃ x, v = Some x ∧ x ≠ "".
Proof. destruct v as [[|c x]|]; simpl; try discriminate. eauto. Qed.

Lemma outcome_state w s r s1 s2 :
  outcome w s r s1 → s1 = s2 → outcome w s r s2.
Proof. by intros H <-. Qed.

Lemma main_outcome w s : outcome w s (main w s).1 (main w s).2.
Proof.
  unfold main.
  destruct (truthy (environ w !! "LINKEDIN_ACCESS_TOKEN")) eqn:Htok; simpl;
    [|by apply ConfigMissing; rewrite Htok].
  destruct (truthy (environ w !! "ARTICLES_API_URL")) eqn:Hapi; simpl;
    [|by apply ConfigMissing; rewrite Htok, Hapi].
  destruct (truthy_Some _ Htok) as (tok & Etok & Ntok).
  destruct (truthy_Some _ Hapi) as (api & Eapi & Napi).
  assert (Hc : configured w tok api) by done.
  rewrite Etok, Eapi. simpl.
  unfold mbind, M_bind, bind, init_db, get_published_urls, calling, bind, log,
    lift, try, mret, M_ret, ret, raise.
  assert (Hi : ∃ s1,
    (match db_file s with
     | None => (Ok (), mk_state (Some []) (backup_dir s) (calls s))
     | Some _ => (Ok (), s)
     end) = (Ok (), s1)
    ∧ db_file s1 = Some (rows_of s) ∧ backup_dir s1 = backup_dir s
    ∧ calls s1 = calls s).
  { unfold rows_of. destruct s as [[rows|] dir cs]; simpl; eauto. }
  destruct Hi as (s1 & -> & Hdb & Hdir & Hcs). rewrite Hdb. simpl.
  fold (known_urls s).
  destruct (fetch_articles w api) as [articles|e] eqn:Hfetch; simpl;
    [|eapply outcome_state; [by eapply SourceUnavailable|];
      unfold after; by rewrite Hdb, Hdir, Hcs].
  destruct (select_new_articles _ articles) as [[|a rest]|e] eqn:Hsel; simpl;
    [eapply outcome_state; [by eapply NoWork|];
      unfold after; by rewrite Hdb, Hdir, Hcs
    | 
    |eapply outcome_state; [by eapply FilterRaised|];
      unfold after; by rewrite Hdb, Hdir, Hcs].
  destruct (get_linkedin_user_id w tok) as [uid|e] eqn:Huid; simpl;
    [|eapply outcome_state; [by eapply IdentityFailed|];
      unfold after; by rewrite Hdb, Hdir, Hcs, <- app_assoc].
  destruct (create_post_text w a) as [text|e] eqn:Hgen; simpl.
  2: { pose proof (create_post_text_raises _ _ _ Hgen) as ->. simpl.
       eapply outcome_state; [by eapply GenerationFailed|].
       unfold after. by rewrite Hdb, Hdir, Hcs, <- !app_assoc. }
  destruct (post_to_linkedin w tok uid text _) as [json|e] eqn:Hpost; simpl;
    [|eapply outcome_state; [by eapply PublishFailed|];
      unfold after; by rewrite Hdb, Hdir, Hcs, <- !app_assoc].
  unfold backup_db, save_published_article. simpl. rewrite Hdb. simpl.
  destruct (insert_row _ (rows_of s)) as [rows'|e] eqn:Hins; simpl.
  - eapply outcome_state; [by eapply Recorded|].
    unfold after, backed_up, backup_db. simpl.
    by rewrite Hdir, Hcs, <- !app_assoc.
  - eapply outcome_state; [by eapply RecordFailed|].
    unfold after, backed_up, backup_db. simpl.
    by rewrite Hdir, Hcs, <- !app_assoc.
Qed.

Lemma configured_truthy w tok api :
  configured w tok api →
  truthy (environ w !! "LINKEDIN_ACCESS_TOKEN")
    && truthy (environ w !! "ARTICLES_API_URL") = true.
Proof.
  intros (-> & Ht & -> & Ha). by destruct tok, api.
Qed.

Lemma configured_inj w tok api tok' api' :
  configured w tok api → configured w tok' api' → tok = tok' ∧ api = api'.
Proof. intros (? & _ & ? & _) (? & _ & ? & _). split; congruence. Qed.

Lemma trace_after s rows dir tr :
  drop (length (calls s)) (calls (after s rows dir tr)) = tr.
Proof. unfold after. simpl. by rewrite drop_app_length. Qed.

Lemma trace_same (s : state) : drop (length (calls s)) (calls s) = [].
Proof. by apply drop_all. Qed.

(** Splits a membership in an explicit list of calls. *)
Ltac in_trace :=
  repeat match goal with
  | H : _ ∈ [] |- _ => by apply elem_of_nil in H
  | H : _ ∈ _ :: _ |- _ => apply elem_of_cons in H as [H|H]; [try discriminate|]
  end.

(** Two descriptions of one run agree on the settings, the feed and the
    new articles. *)
Ltac same_run :=
  simplify_eq;
  repeat match goal with
  | H : new_articles_of _ _ _ |- _ => destruct H as (? & ? & ? & ? & ? & ?)
  | H : configured ?w _ _, H' : truthy _ && truthy _ = false |- _ =>
      rewrite (configured_truthy _ _ _ H) in H'; discriminate
  | H : configured ?w ?t ?a, H' : configured ?w ?t' ?a' |- _ =>
      destruct (configured_inj _ _ _ _ _ H H') as [<- <-]; clear H'
  | H : ?x = ?a, H' : ?x = ?b |- _ => rewrite H in H'; simplify_eq
  end; simplify_eq.

(** Every way [main w s] can end, with the trace computed. *)
Ltac run_cases w s :=
  let Hrun := fresh "Hrun" in
  pose proof (main_outcome w s) as Hrun;
  unfold run_trace in *;
  destruct (main w s) as [? ?]; simpl in *;
  destruct Hrun; rewrite ?trace_after, ?trace_same in *; simpl in *.

Lemma elem_of_known_urls s u : u ∈ known_urls s ↔ u ∈ url <$> rows_of s.
Proof. unfold known_urls. by rewrite elem_of_list_to_set. Qed.

Lemma insert_row_new s u t p :
  u ∉ known_urls s →
  insert_row (mk_row u t p) (rows_of s) = Ok (rows_of s ++ [mk_row u t p]).
Proof.
  rewrite elem_of_known_urls. intros Hu. unfold insert_row. simpl.
  by destruct (decide _).
Qed.

Lemma insert_row_known s u t p :
  u ∈ known_urls s →
  insert_row (mk_row u t p) (rows_of s) = Raise IntegrityError.
Proof.
  rewrite elem_of_known_urls. intros Hu. unfold insert_row. simpl.
  by destruct (decide _).
Qed.

(** *** Generation failures *)


(** *** Publish failures *)

(** C5: in a run whose publish call fails, nothing is recorded: the table
    and the backups are as before, the exception reaches the top (exit
    status 1), and the article is again the first new one next time. *)
Theorem publish_failure_writes_nothing w s tok uid text u e :
  CallPublish tok uid text u ∈ run_trace w s →
  post_to_linkedin w tok uid text u = Raise e →
  (∀ u' t p, CallRecord u' t p ∉ run_trace w s) ∧
  db_file (main w s).2 = Some (rows_of s) ∧
  known_urls (main w s).2 = known_urls s ∧
  backup_dir (main w s).2 = backup_dir s ∧
  (main w s).1 = Raise e ∧
  exit_code (main w s).1 = 1 ∧
  (∀ l, new_articles_of w s l → new_articles_of w (main w s).2 l).
Proof.
  intros Hcall Hpost.
  run_cases w s; in_trace; same_run.
  split; [intros ? ? ? ?; in_trace|]. by split_and!.
Qed.

(** *** Recording *)


(** *** Selection *)

(** C6: the new articles are a sub-list of the feed, in the feed's order
    (the loop has no other result but the [TypeError] of a naive date);
    when there is a first one, the run publishes at most once and only
    that one; when there is none, the run returns 0 having published and
    recorded nothing. *)
Theorem first_new_article_only w s :
  (∀ urls arts,
     match select_new_articles urls arts with
     | Ok l => sublist l arts
     | Raise e => e = TypeError ∧ Exists (naive_date urls) arts
     end) ∧
  (∀ a rest, new_articles_of w s (a :: rest) →
     (length (filter is_publish (run_trace w s)) ≤ 1)%nat ∧
     ∀ tok uid text u, CallPublish tok uid text u ∈ run_trace w s →
       u = get_default a "link" "" ∧ create_post_text w a = Ok text) ∧
  (new_articles_of w s [] →
     (main w s).1 = Ok 0 ∧
     exit_code (main w s).1 = 0 ∧
     (∀ tok uid text u, CallPublish tok uid text u ∉ run_trace w s) ∧
     (∀ u t p, CallRecord u t p ∉ run_trace w s) ∧
     db_file (main w s).2 = Some (rows_of s) ∧
     backup_dir (main w s).2 = backup_dir s).
Proof.
  split_and!.
  - intros urls arts.
    destruct (select_new_articles urls arts) as [l|e] eqn:Hsel.
    + apply select_new_articles_Ok in Hsel as ->. apply sublist_filter.
    + by apply select_new_articles_Raise.
  - intros a rest Hnew.
    run_cases w s; same_run; (split; [simpl; lia|]);
      intros ? ? ? ? Hcall; in_trace; by simplify_eq.
  - intros Hnew.
    run_cases w s; same_run.
    split_and!; try done; intros; intros Hcall; in_trace.
Qed.

(** *** Articles without a link *)

(** C10: an article without [link] passes the ledger check whatever the
    ledger holds; once it is selected and published, the row [main] writes
    has the empty string for [url]: it is added when no such row exists,
    and otherwise the INSERT fails after the post went out. *)
Theorem missing_link_recorded_as_empty w s a rest :
  a !! "link" = None →
  (∀ urls, is_in (a !! "link") urls = false ∧ keeps urls a = keeps ∅ a) ∧
  (∀ tok uid text u json,
     new_articles_of w s (a :: rest) →
     CallPublish tok uid text u ∈ run_trace w s →
     post_to_linkedin w tok uid text u = Ok json →
     u = "" ∧
     (∃ pre, run_trace w s =
        pre ++ [CallRecord "" (a !! "title") (get_default json "id" "")]) ∧
     ("" ∉ known_urls s →
        db_file (main w s).2 =
          Some (rows_of s ++ [mk_row "" (a !! "title") (get_default json "id" "")])
        ∧ (main w s).1 = Ok 0) ∧
     ("" ∈ known_urls s →
        db_file (main w s).2 = Some (rows_of s)
        ∧ (main w s).1 = Raise IntegrityError)).
Proof.
  intros Hlink. split.
  - intros urls. unfold keeps. by rewrite Hlink.
  - intros tok uid text u json Hnew Hcall Hpost.
    assert (Hget : get_default a "link" "" = "")
      by (unfold get_default; by rewrite Hlink).
    run_cases w s; in_trace; same_run; rewrite !Hget in *;
      (split; [done|]); (split; [by eexists [_; _; _; _; _]|]);
      split; intros Hu;
      match goal with
      | H : insert_row _ _ = _ |- _ =>
          first [rewrite insert_row_new in H by done
                |rewrite insert_row_known in H by done]
      end; by simplify_eq.
Qed.

(** C9: a new link whose date parses without offset makes the loop raise
    [TypeError], wherever the article stands in the feed. *)
Theorem naive_date_raises urls arts a :
  a ∈ arts → naive_date urls a →
  select_new_articles urls arts = Raise TypeError.
Proof.
  intros Ha Hn. apply select_new_articles_Raise. split; [done|].
  apply Exists_exists. eauto.
Qed.


(** ** Further results *)

(** *** The eligibility loop *)

Lemma keeps_iff urls a :
  keeps urls a ↔
  is_in (a !! "link") urls = false ∧
  ∃ d off, parse_publish_date (get_default a "publishedAt" "") = Some d ∧
           tzinfo d = Some off ∧
           wall_micros MIN_PUBLISH_DATE ≤ wall_micros d - off.
Proof.
  unfold keeps. destruct (is_in (a !! "link") urls); simpl.
  { split; [done|]. by intros [? _]. }
  destruct (parse_publish_date _) as [d|]; simpl.
  2:{ split; [done|]. by intros [_ (? & ? & ? & _)]. }
  rewrite datetime_ge_cutoff. destruct (tzinfo d) as [off|] eqn:Htz; simpl.
  - rewrite Is_true_true, Z.leb_le. split.
    + intros ?. split; [done|]. by exists d, off.
    + intros [_ (d' & off' & [= <-] & Hoff & ?)]. by simplify_eq.
  - split; [done|]. intros [_ (d' & off' & [= <-] & Hoff & ?)]. congruence.
Qed.

Lemma keeps_not_naive urls a : keeps urls a → ¬ naive_date urls a.
Proof.
  intros (_ & d & off & Hd & Hoff & _)%keeps_iff [_ (d' & Hd' & Hn)].
  congruence.
Qed.


Lemma filter_keeps_id urls l :
  Forall (λ a, keeps urls a) l → filter (λ a, keeps urls a) l = l.
Proof.
  induction 1 as [|a l Ha _ IH]; [done|].
  by rewrite filter_cons_True, IH.
Qed.

(** X2: the loop is idempotent: run on its own result, it returns it
    unchanged. *)
Theorem select_new_articles_idempotent urls arts l :
  select_new_articles urls arts = Ok l → select_new_articles urls l = Ok l.
Proof.
  intros Hsel.
  assert (Hall : Forall (λ a, keeps urls a) l).
  { apply Forall_forall. intros a Ha.
    by apply (select_new_articles_keeps _ _ _ _ Hsel Ha). }
  rewrite select_new_articles_aware.
  - by rewrite filter_keeps_id.
  - eapply Forall_impl; [done|]. apply keeps_not_naive.
Qed.

Lemma is_in_union v (urls urls' : gset string) :
  is_in v (urls ∪ urls') = is_in v urls || is_in v urls'.
Proof.
  destruct v as [u|]; [|done]. simpl.
  rewrite <- bool_decide_or. apply bool_decide_ext, elem_of_union.
Qed.

Lemma select_new_articles_union urls urls' arts l :
  select_new_articles urls arts = Ok l →
  select_new_articles (urls ∪ urls') arts =
    Ok (filter (λ a, negb (is_in (a !! "link") urls')) l).
Proof.
  revert l. induction arts as [|a arts IH]; intros l; simpl.
  { by intros [= <-]. }
  rewrite is_in_union.
  destruct (is_in (a !! "link") urls); simpl; [by auto|].
  destruct (is_in (a !! "link") urls') eqn:Hin'; simpl.
  - destruct (parse_publish_date _) as [d|]; simpl; [|by auto].
    destruct (datetime_ge d MIN_PUBLISH_DATE) as [ge|e]; simpl; [|done].
    destruct (select_new_articles urls arts) as [l0|e]; simpl; [|done].
    intros [= <-]. rewrite (IH l0 eq_refl). f_equal.
    destruct ge; [|done]. rewrite filter_cons_False; [done|].
    rewrite Hin'. by intros [].
  - destruct (parse_publish_date _) as [d|]; simpl; [|by auto].
    destruct (datetime_ge d MIN_PUBLISH_DATE) as [ge|e]; simpl; [|done].
    destruct (select_new_articles urls arts) as [l0|e]; simpl; [|done].
    intros [= <-]. rewrite (IH l0 eq_refl). simpl. f_equal.
    destruct ge; [|done]. rewrite filter_cons_True; [done|].
    by rewrite Hin'.
Qed.

(** X3: a larger ledger only removes articles: when the loop returns [l]
    for the urls [urls], it returns for [urls ∪ urls'] the articles of [l]
    whose link is not in [urls']; and when it raises for the larger
    ledger it raises the same for the smaller one. *)
Theorem select_new_articles_more_urls urls urls' arts :
  (∀ l, select_new_articles urls arts = Ok l →
        select_new_articles (urls ∪ urls') arts =
          Ok (filter (λ a, negb (is_in (a !! "link") urls')) l)) ∧
  (∀ e, select_new_articles (urls ∪ urls') arts = Raise e →
        select_new_articles urls arts = Raise e).
Proof.
  split.
  - intros l. apply select_new_articles_union.
  - intros e Hraise.
    destruct (select_new_articles urls arts) as [l|e'] eqn:Hsel.
    + rewrite (select_new_articles_union _ urls' _ _ Hsel) in Hraise. done.
    + apply select_new_articles_Raise in Hraise as [-> _].
      apply select_new_articles_Raise in Hsel as [-> _]. done.
Qed.

(** X4: the loop treats every article on its own: on a feed in two parts
    it returns the two results one after the other, keeps an article as
    often as the feed has it, and raises as soon as one part does. *)
Theorem select_new_articles_app urls arts1 arts2 :
  select_new_articles urls (arts1 ++ arts2) =
    rbind (select_new_articles urls arts1) (λ l1,
    rbind (select_new_articles urls arts2) (λ l2, Ok (l1 ++ l2))).
Proof.
  induction arts1 as [|a arts1 IH]; simpl.
  { by destruct (select_new_articles urls arts2). }
  destruct (is_in (a !! "link") urls); simpl; [done|].
  destruct (parse_publish_date _) as [d|]; simpl; [|done].
  destruct (datetime_ge d MIN_PUBLISH_DATE) as [ge|e]; simpl; [|done].
  rewrite IH.
  destruct (select_new_articles urls arts1) as [l1|e]; simpl; [|done].
  destruct (select_new_articles urls arts2) as [l2|e]; simpl; [|done].
  by destruct ge.
Qed.

Lemma replace_app old new s1 s2 :
  replace old new (s1 +:+ s2) = replace old new s1 +:+ replace old new s2.
Proof.
  induction s1 as [|c s1 IH]; simpl; [done|].
  rewrite IH. destruct (Ascii.eqb c old); simpl; [|done].
  generalize (replace old new s1) (replace old new s2). clear.
  intros r1 r2. induction new as [|c' new IH]; [done|].
  change (String c' (new +:+ (r1 +:+ r2)) = String c' ((new +:+ r1) +:+ r2)).
  by f_equal.
Qed.

(** X5: a trailing [Z] is read as the offset [+00:00]: the date string
    [s ++ "Z"] gets the result of [s ++ "+00:00"], with any parser. *)
Theorem parse_publish_date_Z s :
  parse_publish_date (s +:+ "Z") = parse_publish_date (s +:+ "+00:00").
Proof.
  unfold parse_publish_date.
  rewrite !bool_decide_eq_false_2 by (by destruct s).
  by rewrite !replace_app.
Qed.

(** *** The ledger over several runs *)

Lemma insert_row_Ok r rows rows' :
  insert_row r rows = Ok rows' ↔ (url r ∉ url <$> rows) ∧ rows' = rows ++ [r].
Proof.
  unfold insert_row. destruct (decide _); split; try done.
  - by intros [? _].
  - by intros [= <-].
  - by intros [_ ->].
Qed.

(** One run leaves the rows as they are or adds one row of a new url. *)
Lemma main_rows w s :
  rows_of (main w s).2 = rows_of s ∨
  ∃ r, (url r ∉ url <$> rows_of s) ∧ rows_of (main w s).2 = rows_of s ++ [r].
Proof.
  run_cases w s; try by left.
  match goal with H : insert_row _ _ = Ok _ |- _ => apply insert_row_Ok in H as [? ->] end.
  right. eauto.
Qed.

(** X6: [save_published_article] succeeds exactly when the table exists
    and has no row of the url; [get_published_urls] then answers the old
    urls and the new one, the row is last in the table, and the backups
    are untouched. *)
Theorem save_then_known u t p s :
  ((∃ s1, save_published_article u t p s = (Ok (), s1)) ↔
     is_Some (db_file s) ∧ (u ∉ known_urls s)) ∧
  (∀ s1, save_published_article u t p s = (Ok (), s1) →
     get_published_urls s1 = (Ok (known_urls s ∪ {[u]}), s1) ∧
     rows_of s1 = rows_of s ++ [mk_row u t p] ∧
     backup_dir s1 = backup_dir s).
Proof.
  unfold save_published_article, get_published_urls, known_urls, rows_of.
  destruct (db_file s) as [rows|] eqn:Hdb; simpl.
  2:{ split; [|done]. split; [by intros [? ?]|]. by intros [[? ?] _]. }
  rewrite elem_of_list_to_set.
  destruct (insert_row _ rows) as [rows'|e] eqn:Hins.
  - apply insert_row_Ok in Hins as [Hnew ->]. simpl in Hnew. split.
    + split; eauto.
    + intros s1 [= <-]. simpl. split_and!; try done.
      do 2 f_equal. rewrite fmap_app, list_to_set_app_L. simpl.
      by rewrite (right_id_L ∅ (∪)).
  - split; [|done]. split; [by intros [? ?]|]. intros [_ Hnew].
    assert (insert_row (mk_row u t p) rows = Ok (rows ++ [mk_row u t p])) as E
      by (by apply insert_row_Ok).
    congruence.
Qed.

(** X7: the urls of the ledger stay pairwise distinct through any number
    of runs, whatever the worlds answer. *)
Theorem ledger_urls_distinct ws s :
  NoDup (url <$> rows_of s) → NoDup (url <$> rows_of (runs ws s)).
Proof.
  revert s. induction ws as [|w ws IH]; intros s Hs; simpl; [done|].
  apply IH. destruct (main_rows w s) as [->|(r & Hr & ->)]; [done|].
  rewrite fmap_app. apply NoDup_app. split_and!; [done| |apply NoDup_singleton].
  intros x Hx ->%list_elem_of_singleton. done.
Qed.

(** X8: the ledger only grows, at its end and by at most one row a run:
    no run removes or changes a row. *)
Theorem ledger_append_only ws s :
  ∃ added, rows_of (runs ws s) = rows_of s ++ added ∧
           (length added ≤ length ws)%nat.
Proof.
  revert s. induction ws as [|w ws IH]; intros s; simpl.
  { exists []. by rewrite app_nil_r. }
  destruct (IH (main w s).2) as (added & -> & Hlen).
  destruct (main_rows w s) as [->|(r & _ & ->)].
  - exists added. split; [done|lia].
  - exists (r :: added). rewrite <- app_assoc. split; [done|simpl; lia].
Qed.


(** *** Backups in any directory *)

(** The sorted names of a directory: newest first, each file once. *)
Lemma sorted_names (dir : gmap Z (list row)) :
  let names := merge_sort newer_first (elements (dom dir)) in
  StronglySorted newer_first names ∧ NoDup names ∧
  (∀ k, k ∈ names ↔ k ∈ dom dir) ∧ length names = size dir.
Proof.
  intros names.
  assert (Hperm : names ≡ₚ elements (dom dir)) by apply merge_sort_Permutation.
  split_and!.
  - apply StronglySorted_merge_sort; apply _.
  - rewrite Hperm. apply NoDup_elements.
  - intros k. by rewrite Hperm, elem_of_elements.
  - rewrite Hperm. by rewrite <- size_dom.
Qed.

Lemma backed_up_lookup now rows dir k :
  backed_up now rows dir !! k =
    if decide (k ∈ drop 5 (merge_sort newer_first
                             (elements (dom (<[now := rows]> dir)))))
    then None else <[now := rows]> dir !! k.
Proof. by rewrite backed_up_eq, unlink_all_lookup. Qed.

(** Newest first and without repetition, an earlier name is later in time. *)
Lemma sorted_names_lt (l1 l2 : list Z) k1 k2 :
  StronglySorted newer_first (l1 ++ l2) → NoDup (l1 ++ l2) →
  k1 ∈ l1 → k2 ∈ l2 → k2 < k1.
Proof.
  intros Hs Hnd H1 H2.
  pose proof (StronglySorted_app_1_elem_of _ _ _ _ _ Hs H1 H2) as Hle.
  apply NoDup_app in Hnd as (_ & Hdisj & _).
  unfold newer_first in Hle.
  assert (k1 ≠ k2) by (intros ->; by apply (Hdisj k2)).
  lia.
Qed.

Lemma backed_up_dom now rows dir :
  dom (backed_up now rows dir) =
    list_to_set (take 5 (merge_sort newer_first
                           (elements (dom (<[now := rows]> dir))))).
Proof.
  destruct (sorted_names (<[now := rows]> dir)) as (_ & Hnd & Hin & _).
  set (names := merge_sort _ _) in *.
  apply set_eq. intros k.
  rewrite elem_of_dom, backed_up_lookup, elem_of_list_to_set. fold names.
  rewrite <- (take_drop 5 names) in Hnd, Hin.
  apply NoDup_app in Hnd as (_ & Hdisj & _).
  destruct (decide (k ∈ drop 5 names)) as [Hd|Hd].
  - split; [by intros [? ?]|]. intros Ht. by destruct (Hdisj k).
  - rewrite <- elem_of_dom, <- Hin, elem_of_app. tauto.
Qed.

Lemma backed_up_size now rows dir :
  size (backed_up now rows dir) = Nat.min 5 (size (<[now := rows]> dir)).
Proof.
  destruct (sorted_names (<[now := rows]> dir)) as (_ & Hnd & _ & Hlen).
  rewrite <- size_dom, backed_up_dom, size_list_to_set, length_take, Hlen; [lia|].
  set (names := merge_sort _ _) in *.
  rewrite <- (take_drop 5 names) in Hnd. by apply NoDup_app in Hnd as (? & _).
Qed.

(** X10: whatever the directory holds, after [backup_db] it holds the
    five newest names of the old files and the new copy together (all of
    them when they are five or fewer), with their contents, and every
    file it lost is older than every file it kept. *)
Theorem backup_keeps_newest_five now rows dir :
  let dir' := <[now := rows]> dir in
  let kept := backed_up now rows dir in
  kept ⊆ dir' ∧
  size kept = Nat.min 5 (size dir') ∧
  ∀ k k', k ∈ dom kept → k' ∈ dom dir' → k' ∉ dom kept → k' < k.
Proof.
  intros dir' kept.
  destruct (sorted_names dir') as (Hs & Hnd & Hin & Hlen).
  set (names := merge_sort _ _) in *.
  assert (Hdom : dom kept = list_to_set (take 5 names)) by apply backed_up_dom.
  split_and!.
  - apply map_subseteq_spec. intros k x. unfold kept.
    rewrite backed_up_lookup. by destruct (decide _).
  - apply backed_up_size.
  - intros k k'. rewrite Hdom, !elem_of_list_to_set, <- Hin.
    rewrite <- (take_drop 5 names) at 2. rewrite elem_of_app.
    intros Hk [Hk'|Hk'] Hout; [done|].
    rewrite <- (take_drop 5 names) in Hs, Hnd.
    by apply (sorted_names_lt _ _ _ _ Hs Hnd).
Qed.

(** X11: the copy just made survives the clean-up exactly when fewer than
    five files of the directory carry a later stamp; with five later ones
    (a clock set back) [backup_db] unlinks its own copy at once. *)
Theorem backup_behind_clock now rows dir :
  backed_up now rows dir !! now =
    if decide (size (filter (λ k, (now < k)%Z) (dom dir)) < 5)%nat
    then Some rows else None.
Proof.
  destruct (sorted_names (<[now := rows]> dir)) as (Hs & Hnd & Hin & _).
  rewrite backed_up_lookup, lookup_insert_eq.
  set (names := merge_sort _ _) in *.
  assert (Hnow : now ∈ names) by (apply Hin, elem_of_dom; by rewrite lookup_insert_eq).
  apply list_elem_of_split in Hnow as (l1 & l2 & Hnames).
  rewrite Hnames in *. clear names Hnames.
  assert (Hlater : filter (λ k, now < k) (dom dir) = list_to_set l1).
  { apply set_eq. intros k.
    rewrite elem_of_filter, elem_of_list_to_set. split.
    - intros [Hlt Hk].
      assert (k ∈ l1 ++ now :: l2) as [?|[->|Hk2]%elem_of_cons]%elem_of_app;
        [|done|lia|].
      { apply Hin. rewrite dom_insert_L, elem_of_union. by right. }
      assert (k < now); [|lia].
      apply (sorted_names_lt (l1 ++ [now]) l2).
      + by rewrite <- app_assoc.
      + by rewrite <- app_assoc.
      + apply elem_of_app. right. by left.
      + done.
    - intros Hk.
      assert (now < k).
      { apply (sorted_names_lt l1 (now :: l2)); [done..|by left]. }
      split; [done|].
      assert (k ∈ dom (<[now := rows]> dir)) as Hd
        by (apply Hin, elem_of_app; by left).
      rewrite dom_insert_L, elem_of_union, elem_of_singleton in Hd.
      destruct Hd as [->|?]; [lia|done]. }
  rewrite Hlater, size_list_to_set
    by (by apply NoDup_app in Hnd as (? & _)).
  apply NoDup_app in Hnd as (_ & Hdisj & Hnd2). apply NoDup_cons in Hnd2 as [Hnot _].
  destruct (decide (length l1 < 5)%nat) as [Hlt|Hge].
  - rewrite decide_False; [done|].
    rewrite drop_app_ge by lia.
    destruct (5 - length l1)%nat as [|n] eqn:E; [lia|]. simpl.
    intros Hd. apply Hnot. rewrite <- (take_drop n l2). apply elem_of_app. by right.
  - rewrite decide_True; [done|].
    rewrite drop_app_le by lia. apply elem_of_app. right. by left.
Qed.

(** One run leaves the backups as they are or makes one backup. *)
Lemma main_backups w s :
  backup_dir (main w s).2 = backup_dir s ∨
  backup_dir (main w s).2 = backed_up (now w) (rows_of s) (backup_dir s).
Proof. run_cases w s; auto. Qed.

(** X12: a backup directory of at most five files stays so through any
    number of runs. *)
Theorem backups_bounded ws s :
  (size (backup_dir s) ≤ 5)%nat → (size (backup_dir (runs ws s)) ≤ 5)%nat.
Proof.
  revert s. induction ws as [|w ws IH]; intros s Hs; simpl; [done|].
  apply IH. destruct (main_backups w s) as [->| ->]; [done|].
  rewrite backed_up_size. lia.
Qed.

(** *** Every run of [main] *)

(** X13: [main] makes no call at all exactly when one of the two settings
    is missing or empty; it then returns 1 and leaves the state as it
    found it: no table is created. *)
Theorem no_call_without_settings w s :
  (run_trace w s = [] ↔
     truthy (environ w !! "LINKEDIN_ACCESS_TOKEN")
       && truthy (environ w !! "ARTICLES_API_URL") = false) ∧
  (truthy (environ w !! "LINKEDIN_ACCESS_TOKEN")
     && truthy (environ w !! "ARTICLES_API_URL") = false →
   (main w s).1 = Ok 1 ∧ (main w s).2 = s).
Proof.
  run_cases w s; [by split; [split|]|..];
    match goal with H : configured _ _ _ |- _ =>
      rewrite (configured_truthy _ _ _ H) end;
    by split; [split|].
Qed.

Lemma rows_of_after s rows dir tr : rows_of (after s rows dir tr) = rows.
Proof. done. Qed.

(** X14: the exit status is 0 or 1; [main] returns 0 exactly when there
    is no new article or when its last call recorded a row, which is then
    the last row of the table. *)
Theorem exit_zero_iff w s :
  (exit_code (main w s).1 = 0 ∨ exit_code (main w s).1 = 1) ∧
  ((main w s).1 = Ok 0 ↔
     new_articles_of w s [] ∨
     ∃ r, rows_of (main w s).2 = rows_of s ++ [r] ∧
          last (run_trace w s)
            = Some (CallRecord (url r) (title r) (linkedin_post_id r))).
Proof.
  run_cases w s; (split; [auto|]); rewrite ?rows_of_after;
    try (split; [done|]; intros [?|(r & Hr & Hl)]; same_run;
         apply (f_equal length) in Hr; rewrite length_app in Hr; simpl in Hr; lia).
  - split; [|done]. intros _. left. by eexists _, _, _.
  - match goal with H : insert_row _ _ = Ok _ |- _ =>
      apply insert_row_Ok in H as [? ->] end.
    split; [|done]. intros _. right. by eexists.
Qed.

(** X15: the calls of a run are the first few of: feed, user id,
    generation, publication, backup, record; in this order, each once,
    and the record has the url and the identifier of the publication. *)
Theorem calls_in_order w s :
  ∃ api tok t d b uid text u p title,
    run_trace w s `prefix_of`
      [CallFetch api; CallUserinfo tok; CallGenerate t d b;
       CallPublish tok uid text u; CallBackup (now w); CallRecord u title p].
Proof.
  run_cases w s;
    unshelve (eexists _, _, _, _, _, _, _, _, _, _; eexists; reflexivity);
    first [exact "" | exact None].
Qed.

Lemma generate_linkedin_post_Ok w t d b pp text :
  generate_linkedin_post w t d b pp = Ok text →
  20 ≤ len (strip text) ∧
  ∃ answer, workflow_invoke w (PostState.mk t d b (default [] pp) "") = Ok answer ∧
            PostState.post_text answer = text.
Proof.
  unfold generate_linkedin_post.
  destruct (workflow_invoke w _) as [answer|e]; [|done].
  destruct (bool_decide _); simpl; [done|].
  destruct (Z.ltb_spec (len (strip (PostState.post_text answer))) 20); [done|].
  intros [= <-]. eauto.
Qed.

(** X16: whatever the language model answers, the text [main] publishes
    is its answer for the title, description and body of one article of
    the feed, taken as it came, and has at least 20 characters once
    stripped. *)
Theorem published_text_valid w s tok uid text u :
  CallPublish tok uid text u ∈ run_trace w s →
  20 ≤ len (strip text) ∧
  ∃ api articles a answer,
    fetch_articles w api = Ok articles ∧ a ∈ articles ∧
    workflow_invoke w
      (PostState.mk (get_default a "title" "") (get_default a "description" "")
         (get_default a "body" "") [] "") = Ok answer ∧
    PostState.post_text answer = text.
Proof.
  intros Hcall.
  run_cases w s; in_trace; same_run;
    match goal with H : create_post_text _ _ = Ok _ |- _ =>
      apply generate_linkedin_post_Ok in H as (? & answer & ? & ?) end;
    match goal with H : select_new_articles _ _ = Ok (?a :: _) |- _ =>
      pose proof (select_new_articles_keeps _ _ _ a H ltac:(by left)) as [? _] end;
    (split; [done|]); by eexists _, _, _, _.
Qed.

(** X17: [main] publishes only an article of the feed that the loop
    keeps: its link is not in the ledger, its date parses to an instant
    not before the cutoff; the url sent is its link, or the empty string
    when it has none, and the author is the user of the token. *)
Theorem published_article_eligible w s tok uid text u :
  CallPublish tok uid text u ∈ run_trace w s →
  ∃ api articles a,
    configured w tok api ∧
    fetch_articles w api = Ok articles ∧
    a ∈ articles ∧ keeps (known_urls s) a ∧
    u = get_default a "link" "" ∧
    (a !! "link" = None ∨ (a !! "link" = Some u ∧ u ∉ known_urls s)) ∧
    get_linkedin_user_id w tok = Ok uid.
Proof.
  intros Hcall.
  run_cases w s; in_trace; same_run;
    match goal with H : select_new_articles _ _ = Ok (?a :: ?rest) |- _ =>
      assert (Hin : a ∈ a :: rest) by (by left);
      destruct (select_new_articles_keeps _ _ _ a H Hin) as [? ?];
      pose proof (λ u, select_new_articles_link _ _ _ a u H Hin) as Hl
    end;
    eexists _, _, _; split_and!; try done;
    unfold get_default; destruct (_ !! "link") eqn:E; simpl; auto.
Qed.

Lemma known_urls_main w s u : u ∈ known_urls s → u ∈ known_urls (main w s).2.
Proof.
  rewrite !elem_of_known_urls.
  destruct (main_rows w s) as [->|(r & _ & ->)]; [done|].
  rewrite fmap_app, elem_of_app. auto.
Qed.

Lemma known_urls_runs ws s u : u ∈ known_urls s → u ∈ known_urls (runs ws s).
Proof.
  revert s. induction ws as [|w ws IH]; intros s Hu; simpl; [done|].
  by apply IH, known_urls_main.
Qed.

(** A url of the ledger, unless empty, is not sent for publication. *)
Lemma known_url_not_published w s u tok uid text :
  u ∈ known_urls s → u ≠ "" → CallPublish tok uid text u ∉ run_trace w s.
Proof.
  intros Hu Hne Hcall.
  run_cases w s; in_trace; same_run;
    match goal with H : select_new_articles _ _ = Ok (?a :: ?rest) |- _ =>
      assert (Hin : a ∈ a :: rest) by (by left);
      pose proof (λ u, select_new_articles_link _ _ _ a u H Hin) as Hl
    end;
    unfold get_default in *; destruct (_ !! "link") eqn:E; simpl in *;
    first [done | by eapply Hl].
Qed.

(** X18: once a url other than the empty string is in the ledger, no
    later run publishes it, however many runs come in between and
    whatever the worlds answer. *)
Theorem recorded_url_never_republished ws w s u tok uid text :
  u ∈ known_urls s → u ≠ "" →
  CallPublish tok uid text u ∉ run_trace w (runs ws s).
Proof.
  intros Hu Hne. apply known_url_not_published; [|done].
  by apply known_urls_runs.
Qed.

Lemma known_urls_snoc s rows' dir tr r :
  rows' = rows_of s ++ [r] →
  known_urls (after s rows' dir tr) = known_urls s ∪ {[url r]}.
Proof.
  intros ->. unfold known_urls. rewrite rows_of_after, fmap_app, list_to_set_app_L.
  simpl. by rewrite (right_id_L ∅ (∪)).
Qed.

(** X19: after a run that returned 0 with [a] the first new article, the
    next run over the same feed finds as new articles the others without
    those of the url just recorded.  When [a] has a link, [a] is gone
    from the list; when it has none, the url recorded is the empty
    string and [a] is first again. *)
Theorem next_run_new_articles w s a rest :
  new_articles_of w s (a :: rest) →
  (main w s).1 = Ok 0 →
  new_articles_of w (main w s).2
    (filter (λ a', negb (is_in (a' !! "link") {[get_default a "link" ""]}))
       (a :: rest)) ∧
  (is_Some (a !! "link") →
   new_articles_of w (main w s).2
     (filter (λ a', negb (is_in (a' !! "link") {[get_default a "link" ""]}))
        rest)) ∧
  (a !! "link" = None →
   ∃ rest', new_articles_of w (main w s).2 (a :: rest')).
Proof.
  intros Hnew Hret.
  assert (Hnext : new_articles_of w (main w s).2
    (filter (λ a', negb (is_in (a' !! "link") {[get_default a "link" ""]}))
       (a :: rest))).
  { revert Hret. run_cases w s; intros Hret; same_run.
    match goal with H : insert_row _ _ = Ok _ |- _ =>
      apply insert_row_Ok in H as [? ?] end.
    eexists _, _, _. split_and!; [done..|].
    erewrite known_urls_snoc by done. simpl.
    by apply select_new_articles_union. }
  split_and!; [done| |].
  - intros [u Hu]. rewrite filter_cons_False in Hnext; [done|].
    unfold get_default. rewrite Hu. simpl.
    rewrite bool_decide_eq_true_2 by (by apply elem_of_singleton). by intros [].
  - intros Hnone. rewrite filter_cons_True in Hnext by (by rewrite Hnone). eauto.
Qed.

(** X20: the table and the backup directory change only in a run whose
    publish call succeeded. *)
Theorem changes_need_publication w s :
  rows_of (main w s).2 ≠ rows_of s ∨ backup_dir (main w s).2 ≠ backup_dir s →
  ∃ tok uid text u json,
    CallPublish tok uid text u ∈ run_trace w s ∧
    post_to_linkedin w tok uid text u = Ok json.
Proof.
  run_cases w s; rewrite ?rows_of_after;
    try (by intros [?|?]); intros _;
    eexists _, _, _, _, _; (split; [|done]);
    do 3 right; by left.
Qed.

(** X21: an article with a new link and a naive date anywhere in the feed
    ends the run with [TypeError] right after the fetch: no call to
    LinkedIn or to the language model is made, and nothing is written. *)
Theorem naive_date_stops_run w s tok api articles a :
  configured w tok api →
  fetch_articles w api = Ok articles →
  a ∈ articles → naive_date (known_urls s) a →
  (main w s).1 = Raise TypeError ∧
  run_trace w s = [CallFetch api] ∧
  rows_of (main w s).2 = rows_of s ∧
  backup_dir (main w s).2 = backup_dir s.
Proof.
  intros Hc Hf Ha Hn.
  assert (Hsel : select_new_articles (known_urls s) articles = Raise TypeError).
  { apply select_new_articles_Raise. split; [done|]. apply Exists_exists. eauto. }
  run_cases w s; same_run. done.
Qed.

(** X22: a feed body without [articles] counts as an empty feed: the run
    returns 0 after the fetch and changes no row. *)
Theorem feed_without_articles w s tok api :
  configured w tok api →
  feed w api = Ok None →
  (main w s).1 = Ok 0 ∧
  run_trace w s = [CallFetch api] ∧
  rows_of (main w s).2 = rows_of s ∧
  backup_dir (main w s).2 = backup_dir s.
Proof.
  intros Hc Hf.
  assert (Hfetch : fetch_articles w api = Ok [])
    by (unfold fetch_articles; by rewrite Hf).
  run_cases w s; same_run; simpl in *; by simplify_eq.
Qed.

(** X23: when the user id cannot be had (the request fails, or the body
    has no [sub]) the run ends with that exception after two calls: the
    language model is not asked and nothing is published or written. *)
Theorem identity_failure_stops_run w s tok api a rest e :
  configured w tok api →
  new_articles_of w s (a :: rest) →
  get_linkedin_user_id w tok = Raise e →
  (userinfo w tok = Raise e ∨
   ∃ json, userinfo w tok = Ok json ∧ json !! "sub" = None ∧ e = KeyError) ∧
  (main w s).1 = Raise e ∧
  run_trace w s = [CallFetch api; CallUserinfo tok] ∧
  rows_of (main w s).2 = rows_of s ∧
  backup_dir (main w s).2 = backup_dir s.
Proof.
  intros Hc Hnew Hid. split.
  { unfold get_linkedin_user_id in Hid.
    destruct (userinfo w tok) as [json|e']; simpl in Hid; [|left; congruence].
    right. exists json. destruct (json !! "sub"); by simplify_eq. }
  run_cases w s; same_run. done.
Qed.
End Program.

(** ** The program on the scenarios *)

(** The dates of the boundary: the cutoff itself is kept, one microsecond
    earlier is not, nor is a date that does not parse. *)
Example boundary :
  select_new_articles iso_fromisoformat ∅
    [art_cutoff; art_before; art_undated; art_a; art_b] = Ok [art_cutoff; art_a].
Proof. vm_compute. reflexivity. Qed.

(** The end-to-end scenario: A is published and recorded, B is not. *)
Example end_to_end :
  let w := world_of [art_a; art_b] fifty posted_p1 in
  (main iso_fromisoformat w fresh).1 = Ok 0 ∧
  db_file (main iso_fromisoformat w fresh).2 = Some [mk_row "a" (Some "T") "p1"] ∧
  run_trace iso_fromisoformat w fresh =
    [CallFetch "http://feed"; CallUserinfo "tok"; CallGenerate "T" "D" "B";
     CallPublish "tok" "me" fifty "a"; CallBackup 20251212093000;
     CallRecord "a" (Some "T") "p1"].
Proof. vm_compute. done. Qed.

(** The second run over the same feed selects nothing. *)
Example second_run :
  let w := world_of [art_a; art_b] fifty posted_p1 in
  let s := (main iso_fromisoformat w fresh).2 in
  (main iso_fromisoformat w s).1 = Ok 0 ∧
  run_trace iso_fromisoformat w s = [CallFetch "http://feed"] ∧
  db_file (main iso_fromisoformat w s).2 = db_file s.
Proof. vm_compute. done. Qed.

(** C1: with an eligible article and one whose date has no offset in the
    feed, the loop keeps neither: it raises [TypeError]. *)
Theorem naive_date_aborts_filter :
  keeps iso_fromisoformat ∅ art_a = true ∧
  parse_publish_date iso_fromisoformat (get_default art_naive "publishedAt" "")
    = Some (mk_datetime 2025 12 12 0 0 0 0 None) ∧
  select_new_articles iso_fromisoformat ∅ [art_a; art_naive] = Raise TypeError ∧
  exit_code (main iso_fromisoformat
               (world_of [art_a; art_naive] fifty posted_p1) fresh).1 = 1.
Proof. vm_compute. done. Qed.

Lemma naive_date_raises_witness :
  select_new_articles iso_fromisoformat ∅ [art_naive] = Raise TypeError.
Proof.
  apply (naive_date_raises iso_fromisoformat ∅ [art_naive] art_naive).
  - by left.
  - split; [by vm_compute|]. eexists. split; [by vm_compute|done].
Defined.

Lemma fifty_len : len fifty = 50.
Proof. reflexivity. Qed.

(** The run over [arts] from [s] gets to [new_articles = l]. *)
Ltac gets_to arts :=
  exists "tok", "http://feed", arts; split_and!; by vm_compute.

Ltac in_run := vm_compute; repeat constructor.

Lemma save_twice_raises_witness :
  save_published_article "a" (Some "T") "p2" (recorded "a")
    = (Raise IntegrityError, recorded "a") ∧
  (∃ urls, get_published_urls (recorded "a") = (Ok urls, recorded "a")
           ∧ "a" ∈ urls) ∧
  length (filter (λ r, url r = "a") (rows_of (recorded "a"))) = 1%nat.
Proof.
  apply (save_twice_raises "a" (Some "T") "p0" (Some "T") "p2"
           (mk_state (Some []) ∅ [])).
  reflexivity.
Defined.



Lemma publish_failure_writes_nothing_witness :
  let w := world_of [art_a; art_b] fifty (Raise HTTPError) in
  (∀ u t p, CallRecord u t p ∉ run_trace iso_fromisoformat w fresh) ∧
  db_file (main iso_fromisoformat w fresh).2 = Some (rows_of fresh) ∧
  known_urls (main iso_fromisoformat w fresh).2 = known_urls fresh ∧
  backup_dir (main iso_fromisoformat w fresh).2 = backup_dir fresh ∧
  (main iso_fromisoformat w fresh).1 = Raise HTTPError ∧
  exit_code (main iso_fromisoformat w fresh).1 = 1 ∧
  (∀ l, new_articles_of iso_fromisoformat w fresh l →
        new_articles_of iso_fromisoformat w (main iso_fromisoformat w fresh).2 l).
Proof.
  intros w.
  apply (publish_failure_writes_nothing iso_fromisoformat w fresh "tok" "me" fifty "a").
  - in_run.
  - done.
Defined.

Lemma first_new_article_only_witness :
  (let w := world_of [art_b; art_a; art_cutoff] fifty posted_p1 in
   (length (filter is_publish (run_trace iso_fromisoformat w fresh)) ≤ 1)%nat ∧
   ∀ tok uid text u, CallPublish tok uid text u ∈ run_trace iso_fromisoformat w fresh →
     u = get_default art_a "link" "" ∧ create_post_text w art_a = Ok text) ∧
  (let w := world_of [art_a; art_b] fifty posted_p1 in
   (main iso_fromisoformat w (recorded "a")).1 = Ok 0 ∧
   exit_code (main iso_fromisoformat w (recorded "a")).1 = 0 ∧
   (∀ tok uid text u,
      CallPublish tok uid text u ∉ run_trace iso_fromisoformat w (recorded "a")) ∧
   (∀ u t p, CallRecord u t p ∉ run_trace iso_fromisoformat w (recorded "a")) ∧
   db_file (main iso_fromisoformat w (recorded "a")).2 = Some (rows_of (recorded "a")) ∧
   backup_dir (main iso_fromisoformat w (recorded "a")).2 = backup_dir (recorded "a")).
Proof.
  split; intros w.
  - apply (proj1 (proj2 (first_new_article_only iso_fromisoformat w fresh))
             art_a [art_cutoff]).
    gets_to [art_b; art_a; art_cutoff].
  - apply (proj2 (proj2 (first_new_article_only iso_fromisoformat w (recorded "a")))).
    gets_to [art_a; art_b].
Defined.

Lemma missing_link_recorded_as_empty_witness :
  let w := world_of [art_nolink] fifty posted_p1 in
  let json : gmap string string := {[ "id" := "p1" ]} in
  "" = "" ∧
  (∃ pre, run_trace iso_fromisoformat w fresh =
     pre ++ [CallRecord "" (art_nolink !! "title") (get_default json "id" "")]) ∧
  ("" ∉ known_urls fresh →
     db_file (main iso_fromisoformat w fresh).2 =
       Some (rows_of fresh ++
             [mk_row "" (art_nolink !! "title") (get_default json "id" "")])
     ∧ (main iso_fromisoformat w fresh).1 = Ok 0) ∧
  ("" ∈ known_urls fresh →
     db_file (main iso_fromisoformat w fresh).2 = Some (rows_of fresh)
     ∧ (main iso_fromisoformat w fresh).1 = Raise IntegrityError).
Proof.
  intros w json.
  assert (Hlink : art_nolink !! "link" = None) by (by vm_compute).
  apply (proj2 (missing_link_recorded_as_empty iso_fromisoformat w fresh
                  art_nolink [] Hlink) "tok" "me" fifty "" json).
  - gets_to [art_nolink].
  - in_run.
  - done.
Defined.

(** The article without link goes out a second time: the ledger already
    has the row of the empty url, the check lets the article through, the
    post is made, and the INSERT fails. *)
Example missing_link_twice :
  let w := world_of [art_nolink] fifty posted_p1 in
  let s := (main iso_fromisoformat w fresh).2 in
  db_file s = Some [mk_row "" (Some "T") "p1"] ∧
  (main iso_fromisoformat w s).1 = Raise IntegrityError ∧
  run_trace iso_fromisoformat w s =
    [CallFetch "http://feed"; CallUserinfo "tok"; CallGenerate "T" "" "";
     CallPublish "tok" "me" fifty ""; CallBackup 20251212093000;
     CallRecord "" (Some "T") "p1"].
Proof. vm_compute. done. Qed.

(** C8 without that condition: two backups within one second have the
    same name, and leave one file where the last two calls are expected. *)
Lemma backup_same_second :
  size (run_backups ∅ [(20251212093000, []);
                        (20251212093000, [mk_row "a" (Some "T") "p1"])])
    ≠ Nat.min 5 2.
Proof. vm_compute. discriminate. Qed.

Lemma backup_retention_witness :
  let cs := [(20251201000000, []); (20251202000000, []); (20251203000000, []);
             (20251204000000, []); (20251205000000, []); (20251206000000, []);
             (20251207000000, [mk_row "a" (Some "T") "p1"])] in
  run_backups ∅ cs = list_to_map (drop (length cs - 5) cs) ∧
  size (run_backups ∅ cs) = Nat.min 5 (length cs) ∧
  dom (run_backups ∅ cs) = list_to_set (drop (length cs - 5) cs.*1).
Proof.
  intros cs. apply (backup_retention cs).
  repeat constructor; reflexivity.
Defined.

(** ** get_token.py *)

Section GetTokenResults.

Import GetToken.

Variable urlparse_query : string → string.
Variable parse_qs : string → gmap string (list string).
Variable urlencode : list (string * string) → string.


Lemma exchange_code_for_token_spec w code c token :
  (exchange_code_for_token w code c).1 = Returns (Some token) ↔
  ∃ resp data,
    accessToken w (token_form w code) = Returns resp ∧
    status_code resp = 200 ∧ json resp = Returns data ∧
    access_token data = Some token.
Proof.
  unfold exchange_code_for_token.
  destruct (accessToken w (token_form w code)) as [resp|e] eqn:Hpost; simpl.
  2:{ split; [done|]. by intros (? & ? & ? & _). }
  destruct (Z.eqb_spec (status_code resp) 200) as [H200|H200].
  2:{ split; [done|]. intros (? & ? & [= <-] & ? & _). done. }
  destruct (json resp) as [data|e] eqn:Hjson; simpl.
  2:{ split; [done|]. intros (? & ? & [= <-] & _ & ? & _). congruence. }
  destruct (access_token data) as [tok|] eqn:Htok; simpl.
  - split.
    + intros [= <-]. by exists resp, data.
    + intros (? & ? & [= <-] & _ & ? & ?). congruence.
  - split; [done|]. intros (? & ? & [= <-] & _ & ? & ?). congruence.
Qed.

(** X24: [exchange_code_for_token] posts one form, with the code and the
    fixed redirect uri.  It returns a token exactly when the endpoint
    answers with status 200 and a JSON body that has [access_token], and
    has then printed that token; with another status it returns [None]
    and has printed the text of the answer instead. *)
Theorem exchange_code_for_token_returns w code c :
  posted (exchange_code_for_token w code c).2 = posted c ++ [token_form w code] ∧
  token_form w code !! "code" = Some (Some code) ∧
  token_form w code !! "redirect_uri" = Some (Some REDIRECT_URI) ∧
  (∀ token,
     (exchange_code_for_token w code c).1 = Returns (Some token) ↔
     ∃ resp data,
       accessToken w (token_form w code) = Returns resp ∧
       status_code resp = 200 ∧ json resp = Returns data ∧
       access_token data = Some token) ∧
  (∀ token,
     (exchange_code_for_token w code c).1 = Returns (Some token) →
     token ∈ stdout (exchange_code_for_token w code c).2) ∧
  ((exchange_code_for_token w code c).1 = Returns None ↔
     ∃ resp, accessToken w (token_form w code) = Returns resp ∧
             status_code resp ≠ 200) ∧
  ((exchange_code_for_token w code c).1 = Returns None →
     ∃ resp, accessToken w (token_form w code) = Returns resp ∧
             stdout (exchange_code_for_token w code c).2 =
               stdout c ++ ["Error getting token: " +:+ text resp]).
Proof.
  unfold exchange_code_for_token.
  destruct (accessToken w (token_form w code)) as [resp|e] eqn:Hpost; simpl.
  2:{ split_and!; try done.
      - intros token. split; [done|]. by intros (? & ? & ? & _).
      - split; [done|]. by intros (? & ? & _). }
  destruct (Z.eqb_spec (status_code resp) 200) as [H200|H200].
  - destruct (json resp) as [data|e] eqn:Hjson; simpl.
    2:{ split_and!; try done.
        - intros token. split; [done|]. intros (? & ? & [= <-] & _ & ? & _). congruence.
        - split; [done|]. by intros (? & [= <-] & ?). }
    destruct (access_token data) as [tok|] eqn:Htok; simpl.
    + split_and!; try done.
      * intros token. split.
        -- intros [= <-]. by exists resp, data.
        -- intros (? & ? & [= <-] & _ & ? & ?). congruence.
      * intros token [= <-]. unfold print. simpl.
        rewrite !elem_of_app, !list_elem_of_singleton. tauto.
      * split; [done|]. by intros (? & [= <-] & ?).
    + split_and!; try done.
      * intros token. split; [done|]. intros (? & ? & [= <-] & _ & ? & ?). congruence.
      * split; [done|]. by intros (? & [= <-] & ?).
  - split_and!; try done.
    + intros token. split; [done|]. intros (? & ? & [= <-] & ? & _). done.
    + split; [|done]. intros _. by exists resp.
    + intros _. by exists resp.
Qed.

(** X25: the handler answers with status 200 exactly when the path
    begins with [/callback], its query has a [code], and the token
    endpoint, asked with the first value of [code], answers with status
    200 and a JSON body whose [access_token] is not empty. *)
Theorem do_GET_success w path c :
  (∃ pg, (GetToken.do_GET urlparse_query parse_qs w path c).1 = Returns (Some (mk_reply 200 pg))) ↔
  String.prefix "/callback" path = true ∧
  ∃ code rest resp data token,
    parse_qs (urlparse_query path) !! "code" = Some (code :: rest) ∧
    accessToken w (token_form w code) = Returns resp ∧
    status_code resp = 200 ∧ json resp = Returns data ∧
    access_token data = Some token ∧ token ≠ "".
Proof.
  unfold GetToken.do_GET.
  destruct (String.prefix "/callback" path); [|split; [by intros [? ?]|by intros [? _]]].
  destruct (parse_qs (urlparse_query path) !! "code") as [[|code rest]|] eqn:Hcode.
  - split; [by intros [? ?]|]. by intros [_ (? & ? & ? & ? & ? & ? & _)].
  - pose proof (exchange_code_for_token_spec w code
                  (print (nl +:+ "Authorization code received!") c)) as Hx.
    destruct (exchange_code_for_token w code _) as [[[[|ch tok]|]|e] c'];
      simpl in *.
    + split; [by intros [? ?]|].
      intros [_ (? & ? & resp & data & token & [= <- <-] & Hp & H200 & Hj & Ht & Hne)].
      destruct (Hx token) as [_ Hx']. 
      assert (Returns (Some "") = Returns (Some token)) as [= <-]; [|done].
      apply Hx'. by exists resp, data.
    + split; [|by eauto]. intros _. split; [done|].
      destruct (Hx (String ch tok)) as [(resp & data & ? & ? & ? & ?) _]; [done|].
      by exists code, rest, resp, data, (String ch tok).
    + split; [by intros [? ?]|].
      intros [_ (? & ? & resp & data & token & [= <- <-] & Hp & H200 & Hj & Ht & Hne)].
      destruct (Hx token) as [_ Hx']. 
      assert (Returns None = Returns (Some token)) as [=].
      apply Hx'. by exists resp, data.
    + split; [by intros [? ?]|].
      intros [_ (? & ? & resp & data & token & [= <- <-] & Hp & H200 & Hj & Ht & Hne)].
      destruct (Hx token) as [_ Hx']. 
      assert (Raises e = Returns (Some token)) as [=]. apply Hx'. by exists resp, data.
  - destruct (default _ _) as [|error ?]; simpl.
    + split; [by intros [? ?]|]. by intros [_ (? & ? & ? & ? & ? & ? & _)].
    + split; [by intros [? [=]]|]. by intros [_ (? & ? & ? & ? & ? & ? & _)].
Qed.

Lemma exchange_code_for_token_posted w code c :
  posted (exchange_code_for_token w code c).2 = posted c ++ [token_form w code] ∧
  opened (exchange_code_for_token w code c).2 = opened c.
Proof.
  unfold exchange_code_for_token.
  destruct (accessToken w _) as [resp|e]; [|done].
  destruct (status_code resp =? 200); [|done].
  destruct (json resp) as [data|e]; [|done].
  by destruct (access_token data).
Qed.

Lemma do_GET_posted w path c :
  opened (GetToken.do_GET urlparse_query parse_qs w path c).2 = opened c ∧
  (posted (GetToken.do_GET urlparse_query parse_qs w path c).2 = posted c ∨
   String.prefix "/callback" path = true ∧
   ∃ code rest,
     parse_qs (urlparse_query path) !! "code" = Some (code :: rest) ∧
     posted (GetToken.do_GET urlparse_query parse_qs w path c).2 = posted c ++ [token_form w code]).
Proof.
  unfold GetToken.do_GET.
  destruct (String.prefix "/callback" path); [|by auto].
  destruct (parse_qs (urlparse_query path) !! "code") as [[|code rest]|] eqn:Hcode.
  - by auto.
  - pose proof (exchange_code_for_token_posted w code
                  (print (nl +:+ "Authorization code received!") c)) as [Hp Ho].
    destruct (exchange_code_for_token w code _) as [[[[|ch tok]|]|e] c'];
      simpl in *; (split; [done|]); right; (split; [done|]); by exists code, rest.
  - destruct (default _ _) as [|error ?]; simpl; auto.
Qed.

(** X26: the script posts to the token endpoint at most once, and only
    when both client settings are set and the browser came back to
    [/callback] with a [code]: that code, the fixed redirect uri and the
    client settings are the form.  Without the settings it opens no
    browser and handles no request. *)
Theorem get_token_posts_once w c :
  (truthy (CLIENT_ID w) && truthy (CLIENT_SECRET w) = false →
   (GetToken.main urlparse_query parse_qs urlencode w c).1 = Returns None ∧
   posted (GetToken.main urlparse_query parse_qs urlencode w c).2 = posted c ∧
   opened (GetToken.main urlparse_query parse_qs urlencode w c).2 = opened c) ∧
  (posted (GetToken.main urlparse_query parse_qs urlencode w c).2 = posted c ∨
   truthy (CLIENT_ID w) && truthy (CLIENT_SECRET w) = true ∧
   String.prefix "/callback" (request_path w) = true ∧
   ∃ code rest,
     parse_qs (urlparse_query (request_path w)) !! "code" = Some (code :: rest) ∧
     posted (GetToken.main urlparse_query parse_qs urlencode w c).2 = posted c ++ [token_form w code] ∧
     length (opened (GetToken.main urlparse_query parse_qs urlencode w c).2) = S (length (opened c))).
Proof.
  unfold GetToken.main.
  destruct (truthy (CLIENT_ID w)), (truthy (CLIENT_SECRET w)); simpl;
    try (split; [done|by left]).
  split; [done|].
  match goal with |- context [GetToken.do_GET _ _ w ?p ?c0] =>
    destruct (do_GET_posted w p c0) as [Ho [Hp|(Hpre & code & rest & Hcode & Hp)]]
  end.
  - by left.
  - right. split_and!; try done. exists code, rest. split_and!; try done.
    rewrite Ho. simpl. rewrite length_app. simpl. lia.
Qed.

End GetTokenResults.

(** ** The further results on the scenarios *)


Lemma select_new_articles_idempotent_witness :
  select_new_articles iso_fromisoformat ∅ [art_cutoff; art_a]
    = Ok [art_cutoff; art_a].
Proof.
  apply (select_new_articles_idempotent iso_fromisoformat ∅ feed_boundary).
  by vm_compute.
Defined.

Lemma select_new_articles_more_urls_witness :
  select_new_articles iso_fromisoformat (∅ ∪ {["a"]}) feed_boundary =
    Ok (filter (λ a, negb (is_in (a !! "link") {["a"]})) [art_cutoff; art_a]).
Proof.
  apply (proj1 (select_new_articles_more_urls iso_fromisoformat ∅ {["a"]}
                  feed_boundary)).
  by vm_compute.
Defined.

Lemma ledger_urls_distinct_witness :
  let w := world_of [art_a; art_cutoff] fifty posted_p1 in
  NoDup (url <$> rows_of (runs iso_fromisoformat [w; w; w] fresh)).
Proof.
  intros w. apply (ledger_urls_distinct iso_fromisoformat [w; w; w] fresh).
  simpl. constructor.
Defined.

Lemma backups_bounded_witness :
  let w := world_of [art_a; art_cutoff] fifty posted_p1 in
  (size (backup_dir (runs iso_fromisoformat [w; w] fresh)) ≤ 5)%nat.
Proof.
  intros w. apply (backups_bounded iso_fromisoformat [w; w] fresh).
  vm_compute. lia.
Defined.

Lemma published_text_valid_witness :
  let w := world_of [art_a; art_b] fifty posted_p1 in
  20 ≤ len (strip fifty) ∧
  ∃ api articles a answer,
    fetch_articles w api = Ok articles ∧ a ∈ articles ∧
    workflow_invoke w
      (PostState.mk (get_default a "title" "") (get_default a "description" "")
         (get_default a "body" "") [] "") = Ok answer ∧
    PostState.post_text answer = fifty.
Proof.
  intros w.
  apply (published_text_valid iso_fromisoformat w fresh "tok" "me" fifty "a").
  in_run.
Defined.

Lemma published_article_eligible_witness :
  let w := world_of [art_b; art_a] fifty posted_p1 in
  ∃ api articles a,
    configured w "tok" api ∧
    fetch_articles w api = Ok articles ∧
    a ∈ articles ∧ keeps iso_fromisoformat (known_urls fresh) a ∧
    "a" = get_default a "link" "" ∧
    (a !! "link" = None ∨ (a !! "link" = Some "a" ∧ "a" ∉ known_urls fresh)) ∧
    get_linkedin_user_id w "tok" = Ok "me".
Proof.
  intros w.
  apply (published_article_eligible iso_fromisoformat w fresh "tok" "me" fifty "a").
  in_run.
Defined.

Lemma recorded_url_never_republished_witness :
  let w := world_of [art_a; art_b] fifty posted_p1 in
  CallPublish "tok" "me" fifty "a"
    ∉ run_trace iso_fromisoformat w (runs iso_fromisoformat [w] (recorded "a")).
Proof.
  intros w.
  apply (recorded_url_never_republished iso_fromisoformat [w] w (recorded "a") "a").
  - apply elem_of_list_to_set. simpl. by left.
  - done.
Defined.

Lemma next_run_new_articles_witness :
  let w := world_of [art_a; art_b; art_cutoff] fifty posted_p1 in
  let s' := (main iso_fromisoformat w fresh).2 in
  let others := filter (λ a', negb (is_in (a' !! "link") {[get_default art_a "link" ""]})) in
  new_articles_of iso_fromisoformat w s' (others (art_a :: [art_cutoff])) ∧
  (is_Some (art_a !! "link") →
   new_articles_of iso_fromisoformat w s' (others [art_cutoff])) ∧
  (art_a !! "link" = None →
   ∃ rest', new_articles_of iso_fromisoformat w s' (art_a :: rest')).
Proof.
  intros w.
  apply (next_run_new_articles iso_fromisoformat w fresh art_a [art_cutoff]).
  - gets_to [art_a; art_b; art_cutoff].
  - by vm_compute.
Defined.

Lemma changes_need_publication_witness :
  let w := world_of [art_a; art_b] fifty posted_p1 in
  ∃ tok uid text u json,
    CallPublish tok uid text u ∈ run_trace iso_fromisoformat w fresh ∧
    post_to_linkedin w tok uid text u = Ok json.
Proof.
  intros w. apply (changes_need_publication iso_fromisoformat w fresh).
  left. by vm_compute.
Defined.

Lemma naive_date_stops_run_witness :
  let w := world_of [art_a; art_naive] fifty posted_p1 in
  (main iso_fromisoformat w fresh).1 = Raise TypeError ∧
  run_trace iso_fromisoformat w fresh = [CallFetch "http://feed"] ∧
  rows_of (main iso_fromisoformat w fresh).2 = rows_of fresh ∧
  backup_dir (main iso_fromisoformat w fresh).2 = backup_dir fresh.
Proof.
  intros w.
  apply (naive_date_stops_run iso_fromisoformat w fresh "tok" "http://feed"
           [art_a; art_naive] art_naive).
  - split_and!; by vm_compute.
  - by vm_compute.
  - right. by left.
  - split; [by vm_compute|]. eexists. split; [by vm_compute|done].
Defined.

Lemma feed_without_articles_witness :
  let w := world_with (Ok None) (Ok {[ "sub" := "me" ]}) in
  (main iso_fromisoformat w fresh).1 = Ok 0 ∧
  run_trace iso_fromisoformat w fresh = [CallFetch "http://feed"] ∧
  rows_of (main iso_fromisoformat w fresh).2 = rows_of fresh ∧
  backup_dir (main iso_fromisoformat w fresh).2 = backup_dir fresh.
Proof.
  intros w.
  apply (feed_without_articles iso_fromisoformat w fresh "tok" "http://feed").
  - split_and!; by vm_compute.
  - done.
Defined.

Lemma identity_failure_stops_run_witness :
  let w := world_with (Ok (Some [art_a])) (Ok ∅) in
  (userinfo w "tok" = Raise KeyError ∨
   ∃ json, userinfo w "tok" = Ok json ∧ json !! "sub" = None ∧ KeyError = KeyError) ∧
  (main iso_fromisoformat w fresh).1 = Raise KeyError ∧
  run_trace iso_fromisoformat w fresh = [CallFetch "http://feed"; CallUserinfo "tok"] ∧
  rows_of (main iso_fromisoformat w fresh).2 = rows_of fresh ∧
  backup_dir (main iso_fromisoformat w fresh).2 = backup_dir fresh.
Proof.
  intros w.
  apply (identity_failure_stops_run iso_fromisoformat w fresh "tok" "http://feed"
           art_a []).
  - split_and!; by vm_compute.
  - gets_to [art_a].
  - by vm_compute.
Defined.
